(** * agensgraph-golang: the entity and path scanners

    A shallow embedding of [entity.go] (ScanEntity, saveEntityData) and of
    the path scanner (ScanPath, readPath, BasicPath.SavePath), with the
    properties of the decoder stated and proved over it.

    Conventions of the embedding
    - a Go [[]byte] is a [list byte]; the nil slice and the empty slice are
      both [[]] (the code only ever takes [len] of a slice, never compares
      one against nil);
    - a Go [int] is a [Z]; the one addition whose operand is not bounded
      by the length of a buffer ([advance += n]) wraps at 64 bits;
    - a Go [error] is an [option error], [None] being the nil error;
    - an [interface{}] source is an [iface];
    - a run of a function is an [outcome]: it returns, or it panics, or
      (for the loop of readPath, which is run with fuel) it does not end;
    - a consumer is a record of its methods, each a function on the state
      of the consumer, threaded explicitly. *)

From Stdlib Require Import ZArith List Lia Bool String.
From Stdlib Require Import Strings.Byte.
From Stdlib Require Import DecimalString.
Import ListNotations.

Local Open Scope Z_scope.

(** ** Bytes and slices *)

Definition bytes := list byte.

(** The bytes of a string literal, as the conversion [[]byte("...")]. *)
Definition B (s : string) : bytes := list_byte_of_string s.

Definition len {A : Type} (l : list A) : Z := Z.of_nat (List.length l).

(** [b[i]]: [None] stands for the run-time panic "index out of range". *)
Definition index {A : Type} (b : list A) (i : Z) : option A :=
  if (0 <=? i) && (i <? len b) then nth_error b (Z.to_nat i) else None.

(** [b[i:]]: [None] stands for the panic "slice bounds out of range". *)
Definition slice_from {A : Type} (b : list A) (i : Z) : option (list A) :=
  if (0 <=? i) && (i <=? len b) then Some (skipn (Z.to_nat i) b) else None.

(** [bytes.HasPrefix]. *)
Fixpoint HasPrefix (b prefix : bytes) : bool :=
  match prefix, b with
  | [], _ => true
  | _ :: _, [] => false
  | p :: prefix', c :: b' => Byte.eqb c p && HasPrefix b' prefix'
  end.

(** 64-bit two's complement wrap-around of a Go [int]. *)
Definition wrap_int (z : Z) : Z := (z + 2 ^ 63) mod 2 ^ 64 - 2 ^ 63.

Definition lbracket : byte := "["%byte.
Definition rbracket : byte := "]"%byte.
Definition comma : byte := ","%byte.

(** ** Data model *)

(** Modelled from the spec: the identifier type is not in src/; the spec's
    data model gives it as a pair of non-negative integers, written
    [<catalog>.<local>]. *)
Record GraphId : Type := mkGraphId { catalog : N; local : N }.

(** Modelled from the spec: VertexCore and EdgeCore are not in src/ (only
    their use in example_test.go is); the spec's VertexMetadata and
    EdgeMetadata give their fields.  [CoreNil] is the nil interface value
    that SaveEntity receives for a NULL entity. *)
Inductive coreValue : Type :=
| CoreNil
| VertexCore (Id : GraphId) (Label : bytes)
| EdgeCore (Id : GraphId) (Label : bytes) (Start End : GraphId).

Record entityData : Type := mkEntityData {
  core : coreValue;
  properties : bytes
}.

(** The errors of the two files. *)
Inductive error : Type :=
| InvalidEntitySource (b : bytes)       (* "invalid source for entity: %v" *)
| InvalidEntitySourceType (ty : string) (* "invalid source for entity: %T" *)
| InvalidPathSource (b : bytes)         (* "invalid source for graphpath: %v" *)
| InvalidPathSourceType (ty : string)   (* "invalid source for graphpath: %T" *)
| BadGraphpath (b : bytes)              (* "bad graphpath representation: %s" *)
| InvalidPathElement (inner : error)    (* "invalid path element: " + r.Error() *)
| OtherError (msg : string).            (* an error made by a lexer or a consumer *)

Inductive panic : Type :=
| IndexOutOfRange
| SliceBoundsOutOfRange
| NilDereference
| InvalidEntityDataNil.                 (* panic("invalid entity data: nil") *)

Inductive outcome (A : Type) : Type :=
| Returns (a : A)
| Panics (p : panic)
| Diverges.
Arguments Returns {A} a.
Arguments Panics {A} p.
Arguments Diverges {A}.

(** A value of type [interface{}] handed to a scanner: the nil interface,
    a byte slice, a [*entityData] (whose pointer may itself be nil), or a
    value of any other type, of which only the type name matters. *)
Inductive iface : Type :=
| INil
| IBytes (b : bytes)
| IEntityData (p : option entityData)
| IOther (ty : string).

(** ** Consumers *)

(** An [Entity] over a state [S]: the reader of its literal, SaveEntity,
    SaveProperties when the type implements PropertiesSaver, and what
    [json.Unmarshal] (standard library) does when it decodes into a value
    of the type.  readEntity is unexported, so only the package's own
    vertex and edge readers implement it; it is a function of the bytes. *)
Record Entity (S : Type) : Type := mkEntity {
  readEntity : bytes -> option entityData * option error;
  SaveEntity : bool -> coreValue -> S -> option error * S;
  SaveProperties : option (bytes -> S -> option error * S);
  jsonUnmarshal : bytes -> S -> option error * S
}.
Arguments readEntity {S} _ _.
Arguments SaveEntity {S} _ _ _ _.
Arguments SaveProperties {S} _.
Arguments jsonUnmarshal {S} _ _ _.

Record PathSaver (S : Type) : Type := mkPathSaver {
  SavePath : bool -> list iface -> S -> option error * S
}.
Arguments SavePath {S} _ _ _ _.

(** ** entity.go *)

Definition saveEntityData {S : Type} (d : option entityData)
    (entity : Entity S) (st : S) : outcome (option error * S) :=
  match d with
  | None => Panics InvalidEntityDataNil
  | Some d =>
      let (err, st1) := SaveEntity entity true (core d) st in
      match err with
      | Some e => Returns (Some e, st1)
      | None =>
          match SaveProperties entity with
          | Some saveProperties => Returns (saveProperties (properties d) st1)
          | None => Returns (jsonUnmarshal entity (properties d) st1)
          end
      end
  end.

Definition ScanEntity {S : Type} (src : iface) (entity : Entity S) (st : S)
    : outcome (option error * S) :=
  match src with
  | IBytes src =>
      if len src <? 1 then Returns (Some (InvalidEntitySource src), st)
      else
        let (d, err) := readEntity entity src in
        match err with
        | Some e => Returns (Some e, st)
        | None => saveEntityData d entity st
        end
  | IEntityData src => saveEntityData src entity st
  | INil => Returns (SaveEntity entity false CoreNil st)
  | IOther ty => Returns (Some (InvalidEntitySourceType ty), st)
  end.

(** ** The path scanner *)

(** Modelled from the spec: the constant nullElementValue is not in src/;
    the spec's grammar gives the null sentinel as the keyword NULL. *)
Definition nullElementValue : bytes := B "NULL".

(** An element reader: the bytes consumed, the entity read (nil for the
    null sentinel) and an error. *)
Definition elementReader : Type := bytes -> Z * option entityData * option error.

Section PathScanner.

(** The two element readers are not in src/; readPath is stated over
    any pair of them. *)
Variables readVertexElement readEdgeElement : elementReader.

(** The loop of readPath.  [advance], [ds] and [err] are the named
    results, [read] and [readNext] the two readers that are swapped
    after each element. *)
Fixpoint readPath_loop (fuel : nat) (b : bytes) (advance : Z)
    (ds : list iface) (err : option error) (read readNext : elementReader)
    : outcome (Z * list iface * option error) :=
  match fuel with
  | O => Diverges
  | S fuel' =>
      match index b advance with
      | None => Panics IndexOutOfRange
      | Some c =>
          if Byte.eqb c rbracket then Returns (advance + 1, ds, err)
          else
            (* remove comma *)
            let advance := if 0 <? len ds then advance + 1 else advance in
            match slice_from b advance with
            | None => Panics SliceBoundsOutOfRange
            | Some rest =>
                let '(n, d, r) := read rest in
                match err with
                | Some _ =>
                    match r with
                    | Some e => Returns (advance, ds, Some (InvalidPathElement e))
                    | None => Panics NilDereference
                    end
                | None =>
                    let advance := wrap_int (advance + n) in
                    let ds :=
                      match d with
                      | None => ds ++ [INil]
                      | Some d => ds ++ [IEntityData (Some d)]
                      end in
                    readPath_loop fuel' b advance ds err readNext read
                end
            end
      end
  end.

(** The loop tests [b[advance]] before each element, and from the second
    element on [advance] grows by at least one per turn while the
    readers consume a non-negative count, so [len b + 2] turns are
    enough (see [readPath_loop_ends]). *)
Definition readPath (b : bytes) : outcome (Z * list iface * option error) :=
  if HasPrefix b nullElementValue then Returns (len nullElementValue, [], None)
  else
    match index b 0 with
    | None => Panics IndexOutOfRange
    | Some c =>
        if negb (Byte.eqb c lbracket) then Returns (0, [], Some (BadGraphpath b))
        else readPath_loop (S (S (List.length b))) b 1 [] None
               readVertexElement readEdgeElement
    end.

Definition ScanPath {S : Type} (src : iface) (saver : PathSaver S) (st : S)
    : outcome (option error * S) :=
  match src with
  | INil => Returns (SavePath saver false [] st)
  | IBytes b =>
      let n := len b in
      if n <? 1 then Returns (Some (InvalidPathSource b), st)
      else
        match readPath b with
        | Returns (advance, ds, err) =>
            match err with
            | Some e => Returns (Some e, st)
            | None =>
                if negb (advance =? n) then Returns (Some (BadGraphpath b), st)
                else Returns (SavePath saver true ds st)
            end
        | Panics p => Panics p
        | Diverges => Diverges
        end
  | IEntityData _ => Returns (Some (InvalidPathSourceType "*ag.entityData"), st)
  | IOther ty => Returns (Some (InvalidPathSourceType ty), st)
  end.

End PathScanner.

(** ** BasicPath *)

Section BasicPathSaver.

(** BasicVertex and BasicEdge are not in src/: their states are [V] and
    [E], with the zero values that [make] fills a fresh slice with. *)
Variables V E : Type.
Variable zeroVertex : V.
Variable zeroEdge : E.
Variable vertexEntity : Entity V.
Variable edgeEntity : Entity E.

Record BasicPath : Type := mkBasicPath {
  Valid : bool;
  Vertices : list V;
  Edges : list E
}.

(** Modelled from the spec: the Scan methods of BasicVertex and BasicEdge
    are not in src/.  The path elements are documented as values that
    "can be stored in an entity for vertex or edge by calling ScanEntity",
    and the Scan methods that are in src/ (knows.Scan, BasicPath.Scan)
    hand their source to the package's scanner with the receiver as
    consumer; so do these. *)
Definition BasicVertex_Scan (src : iface) (v : V) : outcome (option error * V) :=
  ScanEntity src vertexEntity v.

Definition BasicEdge_Scan (src : iface) (e : E) : outcome (option error * E) :=
  ScanEntity src edgeEntity e.

(** [make([]T, n)]. *)
Definition make {A : Type} (zero : A) (n : Z) : list A := repeat zero (Z.to_nat n).

(** [l[i] = x], for an index in range. *)
Fixpoint store {A : Type} (l : list A) (i : nat) (x : A) : list A :=
  match l, i with
  | [], _ => []
  | _ :: l', O => x :: l'
  | y :: l', S i' => y :: store l' i' x
  end.

(** The [for i < ne] loop of SavePath; [fuel] counts the turns left. *)
Fixpoint SavePath_loop (fuel : nat) (ne i j : Z) (ds : list iface) (p : BasicPath)
    : outcome (option error * BasicPath + Z * Z * BasicPath) :=
  if negb (i <? ne) then Returns (inr (i, j, p))
  else
    match fuel with
    | O => Diverges
    | S fuel' =>
        match index (Vertices p) i, index ds j with
        | Some v, Some x =>
            match BasicVertex_Scan x v with
            | Returns (err, v') =>
                let p := mkBasicPath (Valid p) (store (Vertices p) (Z.to_nat i) v') (Edges p) in
                match err with
                | Some e => Returns (inl (Some e, p))
                | None =>
                    match index (Edges p) i, index ds (j + 1) with
                    | Some e0, Some y =>
                        match BasicEdge_Scan y e0 with
                        | Returns (err, e') =>
                            let p := mkBasicPath (Valid p) (Vertices p)
                                       (store (Edges p) (Z.to_nat i) e') in
                            match err with
                            | Some e => Returns (inl (Some e, p))
                            | None => SavePath_loop fuel' ne (i + 1) (j + 2) ds p
                            end
                        | Panics q => Panics q
                        | Diverges => Diverges
                        end
                    | _, _ => Panics IndexOutOfRange
                    end
                end
            | Panics q => Panics q
            | Diverges => Diverges
            end
        | _, _ => Panics IndexOutOfRange
        end
    end.

Definition BasicPath_SavePath (valid : bool) (ds : list iface) (p : BasicPath)
    : outcome (option error * BasicPath) :=
  let p := mkBasicPath valid (Vertices p) (Edges p) in
  if negb valid then Returns (None, p)
  else
    let n := len ds in
    if n <? 1 then Returns (None, p)
    else
      let ne := n / 2 in
      let p := mkBasicPath (Valid p) (make zeroVertex (ne + 1)) (Edges p) in
      let p := if 0 <? ne then mkBasicPath (Valid p) (Vertices p) (make zeroEdge ne)
               else p in
      match SavePath_loop (Z.to_nat ne) ne 0 0 ds p with
      | Returns (inl r) => Returns r
      | Returns (inr (i, j, p)) =>
          match index (Vertices p) i, index ds j with
          | Some v, Some x =>
              match BasicVertex_Scan x v with
              | Returns (_, v') =>
                  Returns (None, mkBasicPath (Valid p)
                                   (store (Vertices p) (Z.to_nat i) v') (Edges p))
              | Panics q => Panics q
              | Diverges => Diverges
              end
          | _, _ => Panics IndexOutOfRange
          end
      | Panics q => Panics q
      | Diverges => Diverges
      end.

End BasicPathSaver.

(** ** The element readers, from the spec *)

Module EntityLexer.

Definition dquote : byte := x22.
Definition backslash : byte := x5c.
Definition dot : byte := "."%byte.

Definition isDigit (c : byte) : bool :=
  let n := Byte.to_N c in ((48 <=? n) && (n <=? 57))%N.

Definition isSpace (c : byte) : bool :=
  let n := Byte.to_N c in ((n =? 32) || (n =? 9) || (n =? 10) || (n =? 13))%N.

Definition isOpen (c : byte) : bool := Byte.eqb c "{"%byte || Byte.eqb c lbracket.
Definition isClose (c : byte) : bool := Byte.eqb c "}"%byte || Byte.eqb c rbracket.

(** The longest prefix of bytes that satisfy [p], and what follows it. *)
Fixpoint span (p : byte -> bool) (b : bytes) : bytes * bytes :=
  match b with
  | c :: b' => if p c then let (x, r) := span p b' in (c :: x, r) else ([], b)
  | [] => ([], [])
  end.

Definition expect (c : byte) (b : bytes) : option bytes :=
  match b with
  | x :: r => if Byte.eqb x c then Some r else None
  | [] => None
  end.

Definition digitsValue (ds : bytes) : N :=
  fold_left (fun acc c => acc * 10 + (Byte.to_N c - 48))%N ds 0%N.

(** Modelled from the spec: the identifier parser is not in src/.  Spec
    4.1: two base-10 non-negative integers separated by a dot, neither
    half empty.  The result is the identifier and the bytes after it. *)
Definition readIdentifier (b : bytes) : option (GraphId * bytes) :=
  let (hi, r1) := span isDigit b in
  match hi, expect dot r1 with
  | _ :: _, Some r2 =>
      let (lo, r3) := span isDigit r2 in
      match lo with
      | _ :: _ => Some (mkGraphId (digitsValue hi) (digitsValue lo), r3)
      | [] => None
      end
  | _, _ => None
  end.

(** Modelled from the spec: the scanner of the extent of a JSON value is
    not in src/.  Spec 4.2: one pass with a depth counter for the open and
    close delimiters, an in-string flag toggled by an unescaped quote, and
    a counter of trailing backslashes; the value is done when the depth is
    back to zero; the scan fails when the buffer ends first. *)
Fixpoint scanExtent (b : bytes) (depth : nat) (inString : bool) (backslashes : nat)
    : option bytes :=
  match b with
  | [] => None
  | c :: b' =>
      if inString then
        if Byte.eqb c backslash then scanExtent b' depth true (S backslashes)
        else if Byte.eqb c dquote && Nat.even backslashes then
          match depth with
          | O => Some b'
          | _ => scanExtent b' depth false O
          end
        else scanExtent b' depth true O
      else if Byte.eqb c dquote then scanExtent b' depth true O
      else if isOpen c then scanExtent b' (S depth) false O
      else if isClose c then
        match depth with
        | O => None
        | S O => Some b'
        | S d => scanExtent b' d false O
        end
      else scanExtent b' depth false O
  end.

(** Modelled from the spec: spec 4.2 (c), a bare scalar ends at the first
    byte that cannot continue the token. *)
Definition endsScalar (c : byte) : bool :=
  isSpace c || Byte.eqb c comma || isClose c.

Definition valueExtent (b : bytes) : option bytes :=
  match b with
  | [] => None
  | c :: _ =>
      if isOpen c || Byte.eqb c dquote then scanExtent b O false O
      else
        let (token, r) := span (fun c => negb (endsScalar c)) b in
        match token with
        | [] => None
        | _ :: _ => Some r
        end
  end.

Definition isLabelByte (c : byte) : bool :=
  negb (Byte.eqb c lbracket || Byte.eqb c rbracket || isSpace c).

Notation "x <- a ;; k" :=
  (match a with Some x => k | None => None end)
  (at level 61, a at next level, right associativity, only parsing).

(** The bytes of [b] that precede its suffix [rest]. *)
Definition before (b rest : bytes) : bytes :=
  firstn (List.length b - List.length rest) b.

(** Modelled from the spec: the vertex lexer is not in src/.  Spec 4.3: a
    label, a bracketed identifier, then the extent of the properties. *)
Definition lexVertex (b : bytes) : option (entityData * bytes) :=
  let (label, r0) := span isLabelByte b in
  match label with
  | [] => None
  | _ :: _ =>
      r1 <- expect lbracket r0 ;;
      ir <- readIdentifier r1 ;;
      r3 <- expect rbracket (snd ir) ;;
      r4 <- valueExtent r3 ;;
      Some (mkEntityData (VertexCore (fst ir) label) (before r3 r4), r4)
  end.

(** Modelled from the spec: the edge lexer is not in src/.  Spec 4.3: as
    the vertex up to the first bracketed identifier, then a second bracket
    with the start and end identifiers separated by a comma. *)
Definition lexEdge (b : bytes) : option (entityData * bytes) :=
  let (label, r0) := span isLabelByte b in
  match label with
  | [] => None
  | _ :: _ =>
      r1 <- expect lbracket r0 ;;
      ir <- readIdentifier r1 ;;
      r3 <- expect rbracket (snd ir) ;;
      r4 <- expect lbracket r3 ;;
      sr <- readIdentifier r4 ;;
      r6 <- expect comma (snd sr) ;;
      er <- readIdentifier r6 ;;
      r8 <- expect rbracket (snd er) ;;
      r9 <- valueExtent r8 ;;
      Some (mkEntityData (EdgeCore (fst ir) label (fst sr) (fst er)) (before r8 r9), r9)
  end.

Definition MalformedEntityLiteral : error := OtherError "MalformedEntityLiteral".

(** Modelled from the spec: spec 4.3, the element reader recognises the
    null sentinel (its length consumed, no entity) or one literal of the
    expected kind, and returns the count consumed, the entity and the
    error; on a failure the count is zero and the entity nil. *)
Definition readElement (lex : bytes -> option (entityData * bytes)) : elementReader :=
  fun b =>
    if HasPrefix b nullElementValue then (len nullElementValue, None, None)
    else
      match lex b with
      | Some (d, rest) => (len b - len rest, Some d, None)
      | None => (0, None, Some MalformedEntityLiteral)
      end.

Definition readVertexElement : elementReader := readElement lexVertex.
Definition readEdgeElement : elementReader := readElement lexEdge.

End EntityLexer.

(** ** Path literals *)

(** The text that follows an element of a path literal: the closing
    bracket, or a comma, the next element and what follows that one. *)
Fixpoint tail_text (es : list bytes) : bytes :=
  match es with
  | [] => [rbracket]
  | e :: es' => comma :: e ++ tail_text es'
  end.

(** The bracketed path literal whose element literals are [es]. *)
Definition path_text (es : list bytes) : bytes :=
  lbracket ::
  match es with
  | [] => [rbracket]
  | e :: es' => e ++ tail_text es'
  end.

(** The element that readPath appends for what a reader returned. *)
Definition toElement (d : option entityData) : iface :=
  match d with
  | None => INil
  | Some d => IEntityData (Some d)
  end.

(** What the elements of a path may be: the nil interface or a
    [*entityData] whose pointer is not nil. *)
Definition isPathElement (x : iface) : Prop :=
  x = INil \/ exists d, x = IEntityData (Some d).

(** The first element literal of a path starts with a byte that is not
    the closing bracket. *)
Definition starts_element (es : list bytes) : Prop :=
  match es with
  | [] => True
  | [] :: _ => False
  | (c :: _) :: _ => c <> rbracket
  end.

Section WellFormedPath.

Variables readVertexElement readEdgeElement : elementReader.

Definition readerAt (vertexTurn : bool) : elementReader :=
  if vertexTurn then readVertexElement else readEdgeElement.

(** [recognised turn es ds]: in the path literal, each element literal of
    [es] is recognised in full, without error, by the reader whose turn it
    is (the vertex reader when [turn] is true, then alternating), which
    returns the corresponding entry of [ds]. *)
Inductive recognised : bool -> list bytes -> list (option entityData) -> Prop :=
| recognised_nil : forall turn, recognised turn [] []
| recognised_cons : forall turn e es d ds,
    readerAt turn (e ++ tail_text es) = (len e, d, None) ->
    recognised (negb turn) es ds ->
    recognised turn (e :: es) (d :: ds).

End WellFormedPath.

(** ** Consumers used as instances *)

(** A path consumer that records the calls of SavePath it receives. *)
Definition recorder : PathSaver (list (bool * list iface)) :=
  mkPathSaver _ (fun valid ds log => (None, log ++ [(valid, ds)])).

(** The calls that the entity scanner makes on its consumer. *)
Inductive call : Type :=
| CallSaveEntity (valid : bool) (c : coreValue)
| CallSaveProperties (b : bytes)
| CallJsonUnmarshal (b : bytes).

(** The same consumer, with a log of the calls it receives, in order. *)
Definition traced {S : Type} (entity : Entity S) : Entity (S * list call) :=
  mkEntity _
    (readEntity entity)
    (fun valid c '(st, log) =>
       let (r, st') := SaveEntity entity valid c st in
       (r, (st', log ++ [CallSaveEntity valid c])))
    (match SaveProperties entity with
     | Some saveProperties =>
         Some (fun b '(st, log) =>
                 let (r, st') := saveProperties b st in
                 (r, (st', log ++ [CallSaveProperties b])))
     | None => None
     end)
    (fun b '(st, log) =>
       let (r, st') := jsonUnmarshal entity b st in
       (r, (st', log ++ [CallJsonUnmarshal b]))).

(** Scenario D of the spec: a path of two vertices and one edge. *)
Definition scenarioD_literals : list bytes :=
  [B "A[1.1]{}"; B "B[1.2][1.1,1.3]{}"; B "C[1.3]{}"].

Definition scenarioD_entities : list (option entityData) :=
  [Some (mkEntityData (VertexCore (mkGraphId 1 1) (B "A")) (B "{}"));
   Some (mkEntityData (EdgeCore (mkGraphId 1 2) (B "B") (mkGraphId 1 1) (mkGraphId 1 3))
           (B "{}"));
   Some (mkEntityData (VertexCore (mkGraphId 1 3) (B "C")) (B "{}"))].

(** A reader that consumes a count of bytes between zero and the length
    of the buffer it is given. *)
Definition readerBounded (read : elementReader) : Prop :=
  forall b : bytes, 0 <= fst (fst (read b)) <= len b.

(** The turns of the loop that a state may still need, beyond the bytes
    left: the first turn does not have to advance. *)
Definition slack (ds : list iface) : nat :=
  match ds with
  | [] => 2%nat
  | _ :: _ => 1%nat
  end.

(** Scenario D with a byte appended after the closing bracket. *)
Definition scenarioD_trailing : bytes := path_text scenarioD_literals ++ B "x".

(** Scenario D with semicolons where the commas should be. *)
Definition scenarioD_semicolons : bytes :=
  B "[A[1.1]{};B[1.2][1.1,1.3]{};C[1.3]{}]".

(** ** BasicPath.String and BasicPath.Scan *)

(** [strings.Join]. *)
Fixpoint Join (s : list bytes) (sep : bytes) : bytes :=
  match s with
  | [] => []
  | x :: s' =>
      match s' with
      | [] => x
      | _ :: _ => x ++ sep ++ Join s' sep
      end
  end.

(** A path consumer that keeps the call of SavePath it receives and
    returns no error. *)
Definition capture : PathSaver (option (bool * list iface)) :=
  mkPathSaver _ (fun valid ds _ => (None, Some (valid, ds))).

Section BasicPathMethods.

Variables V E : Type.
Variable zeroVertex : V.
Variable zeroEdge : E.
Variable vertexEntity : Entity V.
Variable edgeEntity : Entity E.

(** The String methods of BasicVertex and BasicEdge are not in src/; a Go
    string is kept as its bytes. *)
Variable vertexString : V -> bytes.
Variable edgeString : E -> bytes.

Variables readVertexElement readEdgeElement : elementReader.

(** The [for i < ne] loop of String; [s] is the slice of strings. *)
Fixpoint String_loop (fuel : nat) (ne i : Z) (p : BasicPath V E) (s : list bytes)
    : outcome (list bytes) :=
  if negb (i <? ne) then Returns s
  else
    match fuel with
    | O => Diverges
    | S fuel' =>
        match index (Vertices V E p) i, index (Edges V E p) i with
        | Some v, Some e =>
            String_loop fuel' ne (i + 1) p (s ++ [vertexString v; edgeString e])
        | _, _ => Panics IndexOutOfRange
        end
    end.

Definition BasicPath_String (p : BasicPath V E) : outcome bytes :=
  if negb (Valid V E p) then Returns (B "NULL")
  else
    let nv := len (Vertices V E p) in
    if nv <? 1 then Returns (B "[]")
    else
      let ne := len (Edges V E p) in
      match String_loop (Z.to_nat ne) ne 0 p [] with
      | Returns s =>
          match index (Vertices V E p) (nv - 1) with
          | Some v =>
              Returns (lbracket :: Join (s ++ [vertexString v]) [comma] ++ [rbracket])
          | None => Panics IndexOutOfRange
          end
      | Panics q => Panics q
      | Diverges => Diverges
      end.

(** BasicPath.Scan calls ScanPath with the receiver as the saver.  The
    SavePath of BasicPath may panic, which the record of a path consumer
    does not express; ScanPath calls SavePath at most once, as its last
    statement, and returns what it returns, so the scan is the run of
    ScanPath up to that call, followed by the call. *)
Definition BasicPath_Scan (src : iface) (p : BasicPath V E)
    : outcome (option error * BasicPath V E) :=
  match ScanPath readVertexElement readEdgeElement src capture None with
  | Returns (_, Some (valid, ds)) =>
      BasicPath_SavePath V E zeroVertex zeroEdge vertexEntity edgeEntity valid ds p
  | Returns (r, None) => Returns (r, p)
  | Panics q => Panics q
  | Diverges => Diverges
  end.

End BasicPathMethods.

(** ** Paths as pairs *)

(** The elements of a path in order: each vertex with the edge that
    follows it, then the last vertex. *)
Fixpoint pathElements {A : Type} (pairs : list (A * A)) (last : A) : list A :=
  match pairs with
  | [] => [last]
  | (v, e) :: pairs' => v :: e :: pathElements pairs' last
  end.

Definition toElementPair (dd : option entityData * option entityData)
    : iface * iface :=
  (toElement (fst dd), toElement (snd dd)).

Section ScannedPairs.

Variables V E : Type.
Variable zeroVertex : V.
Variable zeroEdge : E.
Variable vertexEntity : Entity V.
Variable edgeEntity : Entity E.
Variable vertexString : V -> bytes.
Variable edgeString : E -> bytes.

(** The two elements of [pair] scan without error, into a fresh vertex
    and a fresh edge, to the vertex and the edge of [ve]. *)
Definition scansTo (pair : iface * iface) (ve : V * E) : Prop :=
  BasicVertex_Scan V vertexEntity (fst pair) zeroVertex = Returns (None, fst ve)
  /\ BasicEdge_Scan E edgeEntity (snd pair) zeroEdge = Returns (None, snd ve).

Definition pairStrings (ve : V * E) : bytes * bytes :=
  (vertexString (fst ve), edgeString (snd ve)).

End ScannedPairs.

(** ** A consumer that keeps what it is given *)

(** A record type of a caller, used as an instance: it keeps the validity
    flag and the core that SaveEntity gives it, and implements
    PropertiesSaver by keeping the raw properties. *)
Record rawEntity : Type := mkRaw {
  rawValid : bool;
  rawCore : coreValue;
  rawProperties : bytes
}.

Definition rawZero : rawEntity := mkRaw false CoreNil [].

Definition rawConsumer (read : elementReader) : Entity rawEntity :=
  mkEntity _
    (fun b => let '(_, d, e) := read b in (d, e))
    (fun valid c st => (None, mkRaw valid c (rawProperties st)))
    (Some (fun b st => (None, mkRaw (rawValid st) (rawCore st) b)))
    (fun _ st => (None, st)).

Definition showGraphId (g : GraphId) : bytes :=
  list_byte_of_string (NilZero.string_of_uint (N.to_uint (catalog g)))
  ++ B "." ++ list_byte_of_string (NilZero.string_of_uint (N.to_uint (local g))).

(** The literal of what the record keeps. *)
Definition rawString (st : rawEntity) : bytes :=
  match rawCore st with
  | CoreNil => B "NULL"
  | VertexCore id label =>
      label ++ B "[" ++ showGraphId id ++ B "]" ++ rawProperties st
  | EdgeCore id label start finish =>
      label ++ B "[" ++ showGraphId id ++ B "][" ++ showGraphId start ++ B ","
      ++ showGraphId finish ++ B "]" ++ rawProperties st
  end.

Definition rawVertex : Entity rawEntity := rawConsumer EntityLexer.readVertexElement.
Definition rawEdge : Entity rawEntity := rawConsumer EntityLexer.readEdgeElement.

(** Scenario D as the records of the consumer. *)
Definition scenarioD_A : rawEntity :=
  mkRaw true (VertexCore (mkGraphId 1 1) (B "A")) (B "{}").
Definition scenarioD_B : rawEntity :=
  mkRaw true (EdgeCore (mkGraphId 1 2) (B "B") (mkGraphId 1 1) (mkGraphId 1 3)) (B "{}").
Definition scenarioD_C : rawEntity :=
  mkRaw true (VertexCore (mkGraphId 1 3) (B "C")) (B "{}").

Definition scenarioD_A_data : option entityData :=
  Some (mkEntityData (VertexCore (mkGraphId 1 1) (B "A")) (B "{}")).
Definition scenarioD_B_data : option entityData :=
  Some (mkEntityData (EdgeCore (mkGraphId 1 2) (B "B") (mkGraphId 1 1) (mkGraphId 1 3))
          (B "{}")).
Definition scenarioD_C_data : option entityData :=
  Some (mkEntityData (VertexCore (mkGraphId 1 3) (B "C")) (B "{}")).

(** * Properties *)

(** ** Slices and integers *)

Lemma len_app {A : Type} (l1 l2 : list A) : len (l1 ++ l2) = len l1 + len l2.
Proof. unfold len. rewrite length_app. lia. Qed.

Lemma len_cons {A : Type} (x : A) (l : list A) : len (x :: l) = 1 + len l.
Proof. unfold len. simpl List.length. lia. Qed.

Lemma len_nonneg {A : Type} (l : list A) : 0 <= len l.
Proof. unfold len. lia. Qed.

Lemma wrap_int_small (z : Z) : - 2 ^ 63 <= z < 2 ^ 63 -> wrap_int z = z.
Proof.
  intros Hz. unfold wrap_int.
  rewrite Z.mod_small by lia. lia.
Qed.

Lemma index_app_here {A : Type} (pre : list A) (c : A) (rest : list A) :
  index (pre ++ c :: rest) (len pre) = Some c.
Proof.
  unfold index.
  assert (H0 : (0 <=? len pre) = true) by (apply Z.leb_le, len_nonneg).
  assert (H1 : (len pre <? len (pre ++ c :: rest)) = true).
  { apply Z.ltb_lt. rewrite len_app, len_cons. pose proof (len_nonneg rest). lia. }
  rewrite H0, H1. simpl andb. cbv iota.
  unfold len. rewrite Nat2Z.id.
  rewrite nth_error_app2 by lia.
  rewrite Nat.sub_diag. reflexivity.
Qed.

Lemma slice_from_app {A : Type} (pre rest : list A) :
  slice_from (pre ++ rest) (len pre) = Some rest.
Proof.
  unfold slice_from.
  assert (H0 : (0 <=? len pre) = true) by (apply Z.leb_le, len_nonneg).
  assert (H1 : (len pre <=? len (pre ++ rest)) = true).
  { apply Z.leb_le. rewrite len_app. pose proof (len_nonneg rest). lia. }
  rewrite H0, H1. simpl andb. cbv iota.
  unfold len. rewrite Nat2Z.id.
  rewrite skipn_app, skipn_all, Nat.sub_diag. reflexivity.
Qed.

Lemma index_1 {A : Type} (a c : A) (rest : list A) :
  index (a :: c :: rest) 1 = Some c.
Proof. exact (index_app_here [a] c rest). Qed.

Lemma slice_from_1 {A : Type} (a : A) (rest : list A) :
  slice_from (a :: rest) 1 = Some rest.
Proof. exact (slice_from_app [a] rest). Qed.

(** ** readPath on well-formed literals *)

Section ReadPathFacts.

Variables readVertexElement readEdgeElement : elementReader.

Lemma tail_text_length (es : list bytes) :
  (List.length es < List.length (tail_text es))%nat.
Proof.
  induction es as [|e es IH]; simpl; [lia|].
  rewrite length_app. lia.
Qed.

Lemma toElement_app (acc : list iface) (d : option entityData) :
  match d with
  | None => acc ++ [INil]
  | Some d => acc ++ [IEntityData (Some d)]
  end = acc ++ [toElement d].
Proof. destruct d; reflexivity. Qed.

(** The loop, entered after at least one element, on the rest of a
    well-formed literal. *)
Lemma readPath_loop_recognised (es : list bytes) :
  forall turn ds acc pre fuel,
    recognised readVertexElement readEdgeElement turn es ds ->
    acc <> [] ->
    len (pre ++ tail_text es) < 2 ^ 63 ->
    (List.length es < fuel)%nat ->
    readPath_loop fuel (pre ++ tail_text es) (len pre) acc None
      (readerAt readVertexElement readEdgeElement turn)
      (readerAt readVertexElement readEdgeElement (negb turn))
    = Returns (len (pre ++ tail_text es), acc ++ map toElement ds, None).
Proof.
  induction es as [|e es IH]; intros turn ds acc pre fuel Hrec Hacc Hlen Hfuel.
  - inversion Hrec; subst.
    destruct fuel as [|fuel]; [simpl in Hfuel; lia|].
    simpl tail_text. simpl readPath_loop.
    rewrite index_app_here. simpl.
    rewrite app_nil_r, len_app, len_cons. reflexivity.
  - inversion Hrec as [|turn' e' es' d ds' Hread Hrest]; subst.
    destruct fuel as [|fuel]; [simpl in Hfuel; lia|].
    simpl tail_text. simpl readPath_loop.
    rewrite index_app_here.
    change (Byte.eqb comma rbracket) with false. cbv iota.
    assert (Hpos : (0 <? len acc) = true).
    { apply Z.ltb_lt. destruct acc; [congruence|]. rewrite len_cons.
      pose proof (len_nonneg acc). lia. }
    rewrite Hpos.
    replace (pre ++ comma :: e ++ tail_text es)
      with ((pre ++ [comma]) ++ e ++ tail_text es)
      by (rewrite <- app_assoc; reflexivity).
    replace (len pre + 1) with (len (pre ++ [comma]))
      by (rewrite len_app, len_cons; reflexivity).
    rewrite slice_from_app, Hread.
    rewrite toElement_app.
    assert (Hb : (pre ++ [comma]) ++ e ++ tail_text es
                 = ((pre ++ [comma]) ++ e) ++ tail_text es)
      by (rewrite app_assoc; reflexivity).
    rewrite Hb.
    assert (Hadv : wrap_int (len (pre ++ [comma]) + len e)
                   = len ((pre ++ [comma]) ++ e)).
    { rewrite <- len_app. apply wrap_int_small.
      pose proof (len_nonneg ((pre ++ [comma]) ++ e)).
      assert (len ((pre ++ [comma]) ++ e) <= len (pre ++ tail_text (e :: es))).
      { simpl tail_text. rewrite !len_app, !len_cons, !len_app.
        change (len (@nil byte)) with 0.
        pose proof (len_nonneg (tail_text es)). lia. }
      lia. }
    rewrite Hadv.
    pose proof (IH (negb turn) ds' (acc ++ [toElement d])
                  ((pre ++ [comma]) ++ e) fuel Hrest) as IH'.
    rewrite negb_involutive in IH'.
    rewrite IH'.
    + rewrite <- Hb. simpl map. rewrite <- (app_assoc acc). reflexivity.
    + destruct acc; discriminate.
    + rewrite <- Hb.
      replace ((pre ++ [comma]) ++ e ++ tail_text es)
        with (pre ++ tail_text (e :: es))
        by (simpl tail_text; rewrite <- app_assoc; reflexivity).
      exact Hlen.
    + simpl in Hfuel. lia.
Qed.

End ReadPathFacts.

(** ** The claims *)

(** One turn of the loop. *)
Lemma readPath_loop_step (fuel : nat) (b : bytes)
    (advance : Z) (ds : list iface) (err : option error)
    (read readNext : elementReader) :
  readPath_loop (S fuel) b advance ds err read readNext =
  match index b advance with
  | None => Panics IndexOutOfRange
  | Some c =>
      if Byte.eqb c rbracket then Returns (advance + 1, ds, err)
      else
        let advance := if 0 <? len ds then advance + 1 else advance in
        match slice_from b advance with
        | None => Panics SliceBoundsOutOfRange
        | Some rest =>
            let '(n, d, r) := read rest in
            match err with
            | Some _ =>
                match r with
                | Some e => Returns (advance, ds, Some (InvalidPathElement e))
                | None => Panics NilDereference
                end
            | None =>
                readPath_loop fuel b (wrap_int (advance + n))
                  match d with
                  | None => ds ++ [INil]
                  | Some d => ds ++ [IEntityData (Some d)]
                  end err readNext read
            end
        end
  end.
Proof. reflexivity. Qed.

(** A buffer that starts with the opening bracket goes to the loop. *)
Lemma readPath_bracket (rv re : elementReader) (rest : bytes) :
  readPath rv re (lbracket :: rest)
  = readPath_loop (S (S (List.length (lbracket :: rest)))) (lbracket :: rest) 1 []
      None rv re.
Proof. reflexivity. Qed.

(** C6.  On a well-formed bracketed path literal, readPath reads the
    element literals in turn, the one at an even index with the vertex
    reader and the one at an odd index with the edge reader, and returns
    one element per literal, so 2k+1 elements for a path of k edges; it
    consumes the whole literal, and ScanPath delivers the elements with
    valid = true.  For the empty path no element is delivered, with
    valid = true. *)
Theorem readPath_alternates
    (readVertexElement readEdgeElement : elementReader)
    (es : list bytes) (ds : list (option entityData)) :
  len (path_text es) < 2 ^ 63 ->
  starts_element es ->
  recognised readVertexElement readEdgeElement true es ds ->
  readPath readVertexElement readEdgeElement (path_text es)
    = Returns (len (path_text es), map toElement ds, None)
  /\ List.length (map toElement ds) = List.length es
  /\ (forall k : nat, List.length es = (2 * k + 1)%nat ->
                      List.length (map toElement ds) = (2 * k + 1)%nat)
  /\ (forall (S : Type) (saver : PathSaver S) (st : S),
        ScanPath readVertexElement readEdgeElement (IBytes (path_text es)) saver st
        = Returns (SavePath saver true (map toElement ds) st))
  /\ (forall (S : Type) (saver : PathSaver S) (st : S),
        ScanPath readVertexElement readEdgeElement (IBytes (B "[]")) saver st
        = Returns (SavePath saver true [] st)).
Proof.
  intros Hlen Hstart Hrec.
  assert (Hcount : List.length (map toElement ds) = List.length es).
  { rewrite length_map. clear Hlen Hstart.
    induction Hrec; simpl; congruence. }
  assert (Hread : readPath readVertexElement readEdgeElement (path_text es)
                  = Returns (len (path_text es), map toElement ds, None)).
  { destruct es as [|e es].
    - inversion Hrec; subst. reflexivity.
    - inversion Hrec as [|turn e' es' d ds' Hfirst Hrest]; subst.
      destruct e as [|c e]; [contradiction|].
      simpl in Hstart. simpl readerAt in Hfirst.
      unfold path_text in *.
      rewrite readPath_bracket, readPath_loop_step.
      change ((c :: e) ++ tail_text es) with (c :: (e ++ tail_text es)).
      rewrite index_1.
      destruct (Byte.eqb c rbracket) eqn:Hc.
      { apply Byte.byte_dec_bl in Hc. contradiction. }
      change (0 <? len (@nil iface)) with false. cbv iota zeta.
      rewrite slice_from_1.
      change (c :: e ++ tail_text es) with ((c :: e) ++ tail_text es) in *.
      rewrite Hfirst, toElement_app.
      change (lbracket :: (c :: e) ++ tail_text es)
        with ((lbracket :: c :: e) ++ tail_text es) in *.
      assert (Hadv : wrap_int (1 + len (c :: e)) = len (lbracket :: c :: e)).
      { rewrite (len_cons lbracket). apply wrap_int_small.
        rewrite len_app, (len_cons lbracket) in Hlen.
        pose proof (len_nonneg (tail_text es)).
        pose proof (len_nonneg (c :: e)). lia. }
      rewrite Hadv.
      pose proof (readPath_loop_recognised readVertexElement readEdgeElement
                    es false ds' ([] ++ [toElement d]) (lbracket :: c :: e)
                    (S (List.length ((lbracket :: c :: e) ++ tail_text es)))
                    Hrest) as Hloop.
      simpl negb in Hloop. unfold readerAt in Hloop at 1 2.
      rewrite Hloop.
      + reflexivity.
      + discriminate.
      + exact Hlen.
      + pose proof (tail_text_length es).
        rewrite length_app. lia. }
  assert (Hscan : forall (S : Type) (saver : PathSaver S) (st : S),
             ScanPath readVertexElement readEdgeElement (IBytes (path_text es)) saver st
             = Returns (SavePath saver true (map toElement ds) st)).
  { intros S saver st. unfold ScanPath.
    assert (Hn : (len (path_text es) <? 1) = false).
    { apply Z.ltb_ge. unfold path_text. rewrite len_cons.
      pose proof (len_nonneg (match es with
                              | [] => [rbracket]
                              | e :: es' => e ++ tail_text es'
                              end)). lia. }
    rewrite Hn, Hread, Z.eqb_refl. reflexivity. }
  split; [exact Hread|].
  split; [exact Hcount|].
  split; [intros k Hk; rewrite Hcount; exact Hk|].
  split; [exact Hscan|].
  intros S saver st. reflexivity.
Qed.

(** ** The loop of readPath ends *)

Lemma index_some_range {A : Type} (b : list A) (i : Z) (c : A) :
  index b i = Some c -> 0 <= i < len b.
Proof.
  unfold index. intros H.
  destruct (0 <=? i) eqn:H0; [|discriminate].
  destruct (i <? len b) eqn:H1; [|discriminate].
  apply Z.leb_le in H0. apply Z.ltb_lt in H1. lia.
Qed.

Lemma slice_from_some {A : Type} (b : list A) (i : Z) (rest : list A) :
  slice_from b i = Some rest -> 0 <= i <= len b /\ len rest = len b - i.
Proof.
  unfold slice_from. intros H.
  destruct (0 <=? i) eqn:H0; [|discriminate].
  destruct (i <=? len b) eqn:H1; [|discriminate].
  apply Z.leb_le in H0. apply Z.leb_le in H1.
  simpl in H. injection H as <-.
  split; [lia|].
  unfold len in *. rewrite length_skipn. lia.
Qed.

Lemma slack_snoc (ds : list iface) (x : iface) : slack (ds ++ [x]) = 1%nat.
Proof. destruct ds; reflexivity. Qed.

Lemma slack_bounds (ds : list iface) : (1 <= slack ds <= 2)%nat.
Proof. destruct ds; simpl; lia. Qed.

Lemma readPath_loop_ends (fuel : nat) :
  forall (b : bytes) (advance : Z) (ds : list iface) (err : option error)
         (read readNext : elementReader),
    readerBounded read -> readerBounded readNext ->
    len b < 2 ^ 63 ->
    (Z.to_nat (len b - advance) + slack ds <= fuel)%nat ->
    readPath_loop fuel b advance ds err read readNext <> Diverges.
Proof.
  induction fuel as [|fuel IH]; intros b advance ds err read readNext Hr Hn Hb Hfuel.
  - pose proof (slack_bounds ds). lia.
  - rewrite readPath_loop_step.
    destruct (index b advance) as [c|] eqn:Hidx; [|discriminate].
    apply index_some_range in Hidx.
    destruct (Byte.eqb c rbracket); [discriminate|].
    cbv zeta.
    destruct (slice_from b (if 0 <? len ds then advance + 1 else advance))
      as [rest|] eqn:Hslice; [|discriminate].
    apply slice_from_some in Hslice. destruct Hslice as [Hrange Hrest].
    pose proof (Hr rest) as Hcount.
    destruct (read rest) as [[n d] r]. simpl in Hcount.
    destruct err as [e|]; [destruct r; discriminate|].
    assert (Hwrap : wrap_int ((if 0 <? len ds then advance + 1 else advance) + n)
                    = (if 0 <? len ds then advance + 1 else advance) + n).
    { apply wrap_int_small. lia. }
    rewrite Hwrap.
    apply IH; try assumption.
    assert (Hslack : slack match d with
                           | Some d0 => ds ++ [IEntityData (Some d0)]
                           | None => ds ++ [INil]
                           end = 1%nat)
      by (destruct d; apply slack_snoc).
    rewrite Hslack.
    destruct ds as [|x ds].
    + change (0 <? len (@nil iface)) with false in *. cbv iota in *.
      simpl slack in Hfuel. lia.
    + assert (Hpos : (0 <? len (x :: ds)) = true).
      { apply Z.ltb_lt. rewrite len_cons. pose proof (len_nonneg ds). lia. }
      rewrite Hpos in *. simpl slack in Hfuel. lia.
Qed.

(** With readers that consume a count within their buffer, the fuel that
    readPath gives its loop is enough: readPath returns or panics. *)
Lemma readPath_ends (rv re : elementReader) (b : bytes) :
  readerBounded rv -> readerBounded re -> len b < 2 ^ 63 ->
  readPath rv re b <> Diverges.
Proof.
  intros Hv He Hb. unfold readPath.
  destruct (HasPrefix b nullElementValue); [discriminate|].
  destruct (index b 0); [|discriminate].
  destruct (negb (Byte.eqb b0 lbracket)); [discriminate|].
  apply readPath_loop_ends; try assumption.
  simpl slack. unfold len. lia.
Qed.

(** ** What readPath returns *)

(** The named result [err] is nil all through the loop, so the loop never
    returns an error, whatever the readers report. *)
Lemma readPath_loop_no_error (fuel : nat) :
  forall (b : bytes) (advance : Z) (acc : list iface)
         (read readNext : elementReader) (a : Z) (ds : list iface)
         (err : option error),
    readPath_loop fuel b advance acc None read readNext = Returns (a, ds, err) ->
    err = None.
Proof.
  induction fuel as [|fuel IH]; intros b advance acc read readNext a ds err H.
  - discriminate.
  - rewrite readPath_loop_step in H.
    destruct (index b advance) as [c|]; [|discriminate].
    destruct (Byte.eqb c rbracket); [congruence|].
    cbv zeta in H.
    destruct (slice_from b (if 0 <? len acc then advance + 1 else advance))
      as [rest|]; [|discriminate].
    destruct (read rest) as [[n d] r].
    apply IH in H. exact H.
Qed.

(** The only error of readPath is the one for a buffer that does not
    start with the opening bracket; the error for an invalid path element
    is never returned. *)
Lemma readPath_only_error (rv re : elementReader) (b : bytes)
    (a : Z) (ds : list iface) (e : error) :
  readPath rv re b = Returns (a, ds, Some e) -> e = BadGraphpath b.
Proof.
  unfold readPath. intros H.
  destruct (HasPrefix b nullElementValue); [discriminate|].
  destruct (index b 0) as [c|]; [|discriminate].
  destruct (negb (Byte.eqb c lbracket)); [congruence|].
  apply readPath_loop_no_error in H. discriminate.
Qed.

(** The elements that the loop appends are path elements. *)
Lemma readPath_loop_elements (fuel : nat) :
  forall (b : bytes) (advance : Z) (acc : list iface) (err0 : option error)
         (read readNext : elementReader) (a : Z) (ds : list iface)
         (err : option error),
    Forall isPathElement acc ->
    readPath_loop fuel b advance acc err0 read readNext = Returns (a, ds, err) ->
    Forall isPathElement ds.
Proof.
  induction fuel as [|fuel IH];
    intros b advance acc err0 read readNext a ds err Hacc H.
  - discriminate.
  - rewrite readPath_loop_step in H.
    destruct (index b advance) as [c|]; [|discriminate].
    destruct (Byte.eqb c rbracket); [congruence|].
    cbv zeta in H.
    destruct (slice_from b (if 0 <? len acc then advance + 1 else advance))
      as [rest|]; [|discriminate].
    destruct (read rest) as [[n d] r].
    destruct err0 as [e0|].
    + destruct r; [congruence|discriminate].
    + rewrite toElement_app in H.
      apply IH in H; [exact H|].
      apply Forall_app. split; [exact Hacc|].
      constructor; [|constructor].
      destruct d as [d|]; [right; exists d; reflexivity|left; reflexivity].
Qed.

(** ** The claims, continued *)

(** C10.  Every element of the sequence that readPath returns is the nil
    interface or a [*entityData] whose pointer is not nil.  So ScanEntity,
    given an element back, returns: it takes the nil branch, the result of
    SaveEntity(false, nil), or the branch of an entity already read, and
    it never panics on nil entity data. *)
Theorem readPath_elements_scannable
    (readVertexElement readEdgeElement : elementReader)
    (b : bytes) (advance : Z) (ds : list iface) (err : option error) :
  readPath readVertexElement readEdgeElement b = Returns (advance, ds, err) ->
  Forall isPathElement ds
  /\ forall x : iface, In x ds ->
     forall (S : Type) (entity : Entity S) (st : S),
       ScanEntity x entity st <> Panics InvalidEntityDataNil
       /\ ((x = INil
            /\ ScanEntity x entity st = Returns (SaveEntity entity false CoreNil st))
           \/ (exists (d : entityData) (r : option error * S),
                 x = IEntityData (Some d)
                 /\ ScanEntity x entity st = saveEntityData (Some d) entity st
                 /\ ScanEntity x entity st = Returns r)).
Proof.
  intros H.
  assert (Hall : Forall isPathElement ds).
  { unfold readPath in H.
    destruct (HasPrefix b nullElementValue).
    - injection H as _ <- _. constructor.
    - destruct (index b 0) as [c|]; [|discriminate].
      destruct (negb (Byte.eqb c lbracket)).
      + injection H as _ <- _. constructor.
      + apply readPath_loop_elements in H; [exact H|constructor]. }
  split; [exact Hall|].
  intros x Hx S entity st.
  rewrite Forall_forall in Hall. destruct (Hall x Hx) as [->|[d ->]].
  - split; [discriminate|]. left. split; reflexivity.
  - assert (Hr : exists r, saveEntityData (Some d) entity st = Returns r).
    { unfold saveEntityData.
      destruct (SaveEntity entity true (core d) st) as [[e|] st1].
      - eexists; reflexivity.
      - destruct (SaveProperties entity); eexists; reflexivity. }
    destruct Hr as [r Hr].
    change (ScanEntity (IEntityData (Some d)) entity st)
      with (saveEntityData (Some d) entity st).
    split; [rewrite Hr; discriminate|].
    right. exists d, r. split; [reflexivity|]. split; [reflexivity|exact Hr].
Qed.

(** C5.  When readPath recognises a literal that does not extend to the
    end of the buffer (the count consumed is not the length of the input),
    ScanPath returns an error and does not call SavePath: the state of
    every consumer is left as it was, and a consumer that records its
    calls has recorded none. *)
Theorem ScanPath_trailing_bytes
    (readVertexElement readEdgeElement : elementReader)
    (b : bytes) (advance : Z) (ds : list iface) :
  readPath readVertexElement readEdgeElement b = Returns (advance, ds, None) ->
  advance <> len b ->
  (forall (S : Type) (saver : PathSaver S) (st : S),
      ScanPath readVertexElement readEdgeElement (IBytes b) saver st
      = Returns (Some (BadGraphpath b), st))
  /\ ScanPath readVertexElement readEdgeElement (IBytes b) recorder []
     = Returns (Some (BadGraphpath b), []).
Proof.
  intros Hread Hneq.
  assert (Hall : forall (S : Type) (saver : PathSaver S) (st : S),
             ScanPath readVertexElement readEdgeElement (IBytes b) saver st
             = Returns (Some (BadGraphpath b), st)).
  { intros S saver st. unfold ScanPath.
    destruct (len b <? 1) eqn:Hn.
    - destruct b as [|c b]; [discriminate Hread|].
      apply Z.ltb_lt in Hn. rewrite len_cons in Hn.
      pose proof (len_nonneg b). lia.
    - rewrite Hread.
      destruct (advance =? len b) eqn:Heq.
      + apply Z.eqb_eq in Heq. contradiction.
      + reflexivity. }
  split; [exact Hall|apply Hall].
Qed.

(** C9.  For a nil source ScanEntity calls SaveEntity(false, nil) and
    ScanPath calls SavePath(false, nil), and each returns what the
    consumer returned; no reader is involved, and the only call that a
    recording consumer receives is that one. *)
Theorem scan_nil_source
    (readVertexElement readEdgeElement : elementReader)
    (S T : Type) (entity : Entity S) (saver : PathSaver T) (st : S) (pt : T) :
  ScanEntity INil entity st = Returns (SaveEntity entity false CoreNil st)
  /\ ScanPath readVertexElement readEdgeElement INil saver pt
     = Returns (SavePath saver false [] pt)
  /\ ScanEntity INil (traced entity) (st, [])
     = Returns (fst (SaveEntity entity false CoreNil st),
                (snd (SaveEntity entity false CoreNil st),
                 [CallSaveEntity false CoreNil]))
  /\ ScanPath readVertexElement readEdgeElement INil recorder []
     = Returns (None, [(false, [])]).
Proof.
  split; [reflexivity|]. split; [reflexivity|]. split; [|reflexivity].
  simpl. destruct (SaveEntity entity false CoreNil st). reflexivity.
Qed.

(** C4.  For an entity that was read, saveEntityData first calls
    SaveEntity(true, core).  If that returns an error, the error is the
    result and nothing else is called.  Otherwise the properties are
    delivered, by SaveProperties(raw) when the consumer implements
    PropertiesSaver and by json.Unmarshal(raw, consumer) when it does
    not, and the result of that step is returned as it is. *)
Theorem saveEntityData_calls
    (S : Type) (entity : Entity S) (d : entityData) (st : S) :
  saveEntityData (Some d) (traced entity) (st, []) =
  let (r1, st1) := SaveEntity entity true (core d) st in
  match r1 with
  | Some e => Returns (Some e, (st1, [CallSaveEntity true (core d)]))
  | None =>
      match SaveProperties entity with
      | Some saveProperties =>
          let (r2, st2) := saveProperties (properties d) st1 in
          Returns (r2, (st2, [CallSaveEntity true (core d);
                              CallSaveProperties (properties d)]))
      | None =>
          let (r2, st2) := jsonUnmarshal entity (properties d) st1 in
          Returns (r2, (st2, [CallSaveEntity true (core d);
                              CallJsonUnmarshal (properties d)]))
      end
  end.
Proof.
  unfold saveEntityData, traced. simpl.
  destruct (SaveEntity entity true (core d) st) as [[e|] st1]; [reflexivity|].
  destruct (SaveProperties entity) as [saveProperties|].
  - destruct (saveProperties (properties d) st1). reflexivity.
  - destruct (jsonUnmarshal entity (properties d) st1). reflexivity.
Qed.

Lemma readPath_alternates_witness :
  readPath EntityLexer.readVertexElement EntityLexer.readEdgeElement
    (path_text scenarioD_literals)
    = Returns (37, map toElement scenarioD_entities, None)
  /\ List.length (map toElement scenarioD_entities) = 3%nat.
Proof.
  destruct (readPath_alternates EntityLexer.readVertexElement
              EntityLexer.readEdgeElement scenarioD_literals scenarioD_entities)
    as [Hread [Hcount _]].
  - vm_compute. reflexivity.
  - simpl. discriminate.
  - unfold scenarioD_literals, scenarioD_entities.
    repeat (apply recognised_cons; [vm_compute; reflexivity|]).
    apply recognised_nil.
  - split; [exact Hread|exact Hcount].
Defined.

Lemma readPath_elements_scannable_witness :
  Forall isPathElement (map toElement scenarioD_entities).
Proof.
  apply (readPath_elements_scannable EntityLexer.readVertexElement
           EntityLexer.readEdgeElement (path_text scenarioD_literals) 37
           (map toElement scenarioD_entities) None).
  vm_compute. reflexivity.
Defined.

Lemma ScanPath_trailing_bytes_witness :
  ScanPath EntityLexer.readVertexElement EntityLexer.readEdgeElement
    (IBytes scenarioD_trailing) recorder []
  = Returns (Some (BadGraphpath scenarioD_trailing), []).
Proof.
  apply (ScanPath_trailing_bytes EntityLexer.readVertexElement
           EntityLexer.readEdgeElement scenarioD_trailing 37
           (map toElement scenarioD_entities)).
  - vm_compute. reflexivity.
  - vm_compute. discriminate.
Defined.

(** ** Where the code departs from the claims *)

(** C1.  On the source [NULL] ScanPath calls SavePath(true, nil), not
    SavePath(false, nil): readPath returns the length of the sentinel and
    no element, exactly as it does for the literal of the empty path, and
    ScanPath treats the two alike. *)
Theorem ScanPath_null_literal_valid
    (readVertexElement readEdgeElement : elementReader)
    (S : Type) (saver : PathSaver S) (st : S) :
  readPath readVertexElement readEdgeElement (B "NULL") = Returns (4, [], None)
  /\ ScanPath readVertexElement readEdgeElement (IBytes (B "NULL")) saver st
     = Returns (SavePath saver true [] st)
  /\ ScanPath readVertexElement readEdgeElement (IBytes (B "NULL")) saver st
     = ScanPath readVertexElement readEdgeElement (IBytes (B "[]")) saver st
  /\ ScanPath readVertexElement readEdgeElement (IBytes (B "NULL")) recorder []
     = Returns (None, [(true, [])]).
Proof. repeat split. Qed.

(** C2.  On the buffer [[x]] the vertex reader of the spec reports a
    malformed literal for [x]], yet readPath returns no error: it appends
    a nil element for it (and one more for the edge reader's failure on
    the closing bracket) and ScanPath delivers the two to SavePath. *)
Theorem readPath_keeps_malformed_element :
  EntityLexer.readVertexElement (B "x]")
    = (0, None, Some EntityLexer.MalformedEntityLiteral)
  /\ readPath EntityLexer.readVertexElement EntityLexer.readEdgeElement (B "[x]")
     = Returns (3, [INil; INil], None)
  /\ ScanPath EntityLexer.readVertexElement EntityLexer.readEdgeElement
       (IBytes (B "[x]")) recorder []
     = Returns (None, [(true, [INil; INil])]).
Proof. repeat split. Qed.

(** C3.  With semicolons in the place of the commas of Scenario D,
    readPath skips each of them unread and returns the same three
    elements as for Scenario D itself, and ScanPath delivers them. *)
Theorem readPath_skips_any_separator :
  readPath EntityLexer.readVertexElement EntityLexer.readEdgeElement
    scenarioD_semicolons
    = Returns (37, map toElement scenarioD_entities, None)
  /\ readPath EntityLexer.readVertexElement EntityLexer.readEdgeElement
       scenarioD_semicolons
     = readPath EntityLexer.readVertexElement EntityLexer.readEdgeElement
         (path_text scenarioD_literals)
  /\ ScanPath EntityLexer.readVertexElement EntityLexer.readEdgeElement
       (IBytes scenarioD_semicolons) recorder []
     = Returns (None, [(true, map toElement scenarioD_entities)]).
Proof. repeat split; vm_compute; reflexivity. Qed.

(** C7.  On the one-byte buffer that holds the opening bracket alone,
    readPath indexes the buffer at 1, past its end: ScanPath panics and
    returns no error, whatever the readers and the consumer. *)
Theorem ScanPath_unclosed_bracket_panics
    (readVertexElement readEdgeElement : elementReader)
    (S : Type) (saver : PathSaver S) (st : S) :
  ScanPath readVertexElement readEdgeElement (IBytes (B "[")) saver st
  = Panics IndexOutOfRange.
Proof. reflexivity. Qed.

(** The result of the last Scan of SavePath is dropped: for a path of one
    element, SavePath returns no error whatever that Scan returned. *)
Lemma SavePath_single_element
    (V E : Type) (zeroVertex : V) (zeroEdge : E)
    (vertexEntity : Entity V) (edgeEntity : Entity E)
    (x : iface) (p : BasicPath V E) (r : option error) (v : V) :
  BasicVertex_Scan V vertexEntity x zeroVertex = Returns (r, v) ->
  BasicPath_SavePath V E zeroVertex zeroEdge vertexEntity edgeEntity true [x] p
  = Returns (None, mkBasicPath V E true [v] (Edges V E p)).
Proof.
  intros H. unfold BasicPath_SavePath. simpl.
  change (index [zeroVertex] 0) with (Some zeroVertex).
  change (index [x] 0) with (Some x).
  cbv iota. rewrite H. reflexivity.
Qed.

(** C8.  For a path whose only element is a value that ScanEntity
    rejects, the Scan of the final vertex fails, and SavePath returns no
    error. *)
Theorem SavePath_drops_last_scan_error
    (V E : Type) (zeroVertex : V) (zeroEdge : E)
    (vertexEntity : Entity V) (edgeEntity : Entity E) (p : BasicPath V E) :
  BasicVertex_Scan V vertexEntity (IOther "string") zeroVertex
    = Returns (Some (InvalidEntitySourceType "string"), zeroVertex)
  /\ BasicPath_SavePath V E zeroVertex zeroEdge vertexEntity edgeEntity true
       [IOther "string"] p
     = Returns (None, mkBasicPath V E true [zeroVertex] (Edges V E p)).
Proof. split; reflexivity. Qed.

(** * Further properties of the scanners *)

(** ** ScanPath and its consumer *)


(** A buffer whose first byte is not the opening bracket, and which does
    not start with the null sentinel, is rejected by ScanPath with the
    error for a bad representation; the consumer is not called and no
    reader is consulted. *)
Theorem ScanPath_rejects_non_bracket
    (readVertexElement readEdgeElement : elementReader)
    (c : byte) (rest : bytes) (S : Type) (saver : PathSaver S) (st : S) :
  c <> lbracket ->
  HasPrefix (c :: rest) nullElementValue = false ->
  ScanPath readVertexElement readEdgeElement (IBytes (c :: rest)) saver st
  = Returns (Some (BadGraphpath (c :: rest)), st).
Proof.
  intros Hc Hnull. unfold ScanPath.
  assert (Hn : (len (c :: rest) <? 1) = false).
  { apply Z.ltb_ge. rewrite len_cons. pose proof (len_nonneg rest). lia. }
  rewrite Hn. unfold readPath. rewrite Hnull.
  change (index (c :: rest) 0) with (Some c). cbv beta iota.
  destruct (Byte.eqb c lbracket) eqn:Heq.
  - apply Byte.byte_dec_bl in Heq. contradiction.
  - reflexivity.
Qed.

Lemma ScanPath_rejects_non_bracket_witness :
  ScanPath EntityLexer.readVertexElement EntityLexer.readEdgeElement
    (IBytes (B "A[1.1]{}")) recorder []
  = Returns (Some (BadGraphpath (B "A[1.1]{}")), []).
Proof.
  apply (ScanPath_rejects_non_bracket EntityLexer.readVertexElement
           EntityLexer.readEdgeElement "A"%byte (B "[1.1]{}")).
  - discriminate.
  - reflexivity.
Defined.

(** ** What readPath consumes *)

Lemma HasPrefix_length (prefix : bytes) :
  forall b : bytes, HasPrefix b prefix = true -> len prefix <= len b.
Proof.
  induction prefix as [|p prefix IH]; intros b H.
  - apply len_nonneg.
  - destruct b as [|c b]; [discriminate|].
    simpl in H. apply andb_prop in H. destruct H as [_ H].
    apply IH in H. rewrite !len_cons. lia.
Qed.

Lemma HasPrefix_exact (prefix : bytes) :
  forall b : bytes, HasPrefix b prefix = true -> len b = len prefix -> b = prefix.
Proof.
  induction prefix as [|p prefix IH]; intros b H Hlen.
  - destruct b as [|c b]; [reflexivity|].
    rewrite len_cons in Hlen. pose proof (len_nonneg b).
    change (len (@nil byte)) with 0 in Hlen. lia.
  - destruct b as [|c b]; [discriminate|].
    simpl in H. apply andb_prop in H. destruct H as [Hc H].
    apply Byte.byte_dec_bl in Hc. subst c.
    rewrite !len_cons in Hlen.
    rewrite (IH b H) by lia. reflexivity.
Qed.

(** When the loop returns, the byte before the position it returns is a
    closing bracket. *)
Lemma readPath_loop_closed (fuel : nat) :
  forall (b : bytes) (advance : Z) (acc : list iface)
         (read readNext : elementReader) (a : Z) (ds : list iface)
         (err : option error),
    readPath_loop fuel b advance acc None read readNext = Returns (a, ds, err) ->
    index b (a - 1) = Some rbracket.
Proof.
  induction fuel as [|fuel IH]; intros b advance acc read readNext a ds err H.
  - discriminate.
  - rewrite readPath_loop_step in H.
    destruct (index b advance) as [c|] eqn:Hidx; [|discriminate].
    destruct (Byte.eqb c rbracket) eqn:Hc.
    + apply Byte.byte_dec_bl in Hc. subst c.
      injection H as <- _ _.
      replace (advance + 1 - 1) with advance by lia. exact Hidx.
    + cbv zeta in H.
      destruct (slice_from b (if 0 <? len acc then advance + 1 else advance))
        as [rest|]; [|discriminate].
      destruct (read rest) as [[n d] r].
      apply IH in H. exact H.
Qed.

Lemma readPath_returns_literal
    (readVertexElement readEdgeElement : elementReader)
    (b : bytes) (advance : Z) (ds : list iface) :
  readPath readVertexElement readEdgeElement b = Returns (advance, ds, None) ->
  0 < advance <= len b
  /\ ((HasPrefix b nullElementValue = true /\ advance = 4 /\ ds = [])
      \/ (index b 0 = Some lbracket /\ index b (advance - 1) = Some rbracket)).
Proof.
  unfold readPath. intros H.
  destruct (HasPrefix b nullElementValue) eqn:Hnull.
  - injection H as <- <-.
    apply HasPrefix_length in Hnull.
    change (len nullElementValue) with 4 in *.
    split; [lia|]. left. repeat split.
  - destruct (index b 0) as [c|] eqn:H0; [|discriminate].
    destruct (Byte.eqb c lbracket) eqn:Hc; [|discriminate].
    apply Byte.byte_dec_bl in Hc. subst c. simpl negb in H. cbv iota in H.
    apply readPath_loop_closed in H.
    pose proof (index_some_range _ _ _ H) as Hrange.
    split; [lia|]. right. split; [reflexivity|exact H].
Qed.

(** Whatever the readers return, a count that readPath returns without
    error lies within the buffer, and the bytes it covers are either the
    null sentinel, with no element, or a literal that opens with a
    bracket and whose last byte is a closing bracket. *)
Theorem readPath_consumed_literal
    (readVertexElement readEdgeElement : elementReader)
    (b : bytes) (advance : Z) (ds : list iface) :
  readPath readVertexElement readEdgeElement b = Returns (advance, ds, None) ->
  0 < advance <= len b
  /\ ((HasPrefix b nullElementValue = true /\ advance = 4 /\ ds = [])
      \/ (index b 0 = Some lbracket /\ index b (advance - 1) = Some rbracket)).
Proof. apply readPath_returns_literal. Qed.

Lemma readPath_consumed_literal_witness :
  0 < 37 <= len (path_text scenarioD_literals)
  /\ ((HasPrefix (path_text scenarioD_literals) nullElementValue = true
       /\ 37 = 4 /\ map toElement scenarioD_entities = [])
      \/ (index (path_text scenarioD_literals) 0 = Some lbracket
          /\ index (path_text scenarioD_literals) (37 - 1) = Some rbracket)).
Proof.
  apply (readPath_consumed_literal EntityLexer.readVertexElement
           EntityLexer.readEdgeElement).
  vm_compute. reflexivity.
Defined.

(** ScanPath calls SavePath on a byte buffer only with valid = true, and
    only when the whole buffer is the null sentinel (then with no
    element) or opens with a bracket and ends with a closing bracket. *)
Theorem ScanPath_delivers_whole_literal
    (readVertexElement readEdgeElement : elementReader)
    (b : bytes) (r : option error) (valid : bool) (ds : list iface) :
  ScanPath readVertexElement readEdgeElement (IBytes b) capture None
    = Returns (r, Some (valid, ds)) ->
  valid = true
  /\ ((b = nullElementValue /\ ds = [])
      \/ (index b 0 = Some lbracket /\ index b (len b - 1) = Some rbracket)).
Proof.
  unfold ScanPath. intros H.
  destruct (len b <? 1); [discriminate|].
  destruct (readPath readVertexElement readEdgeElement b)
    as [[[advance ds'] [e|]]| |] eqn:Hread; try discriminate.
  destruct (advance =? len b) eqn:Hadv; [|discriminate].
  apply Z.eqb_eq in Hadv. simpl in H. injection H as _ <- <-.
  split; [reflexivity|].
  apply readPath_returns_literal in Hread.
  destruct Hread as [_ [[Hnull [H4 Hds]]|[Hopen Hclose]]].
  - left. split; [|exact Hds].
    apply HasPrefix_exact; [exact Hnull|].
    rewrite <- Hadv, H4. reflexivity.
  - right. rewrite <- Hadv. split; assumption.
Qed.

Lemma ScanPath_delivers_whole_literal_witness :
  true = true
  /\ ((path_text scenarioD_literals = nullElementValue
       /\ map toElement scenarioD_entities = [])
      \/ (index (path_text scenarioD_literals) 0 = Some lbracket
          /\ index (path_text scenarioD_literals)
               (len (path_text scenarioD_literals) - 1) = Some rbracket)).
Proof.
  apply (ScanPath_delivers_whole_literal EntityLexer.readVertexElement
           EntityLexer.readEdgeElement (path_text scenarioD_literals) None).
  vm_compute. reflexivity.
Defined.

(** ** When ScanEntity panics *)


(** ** The readers of the spec consume a count within their buffer *)

Lemma span_rest_length (p : byte -> bool) (b : bytes) :
  (List.length (snd (EntityLexer.span p b)) <= List.length b)%nat.
Proof.
  induction b as [|c b IH]; simpl; [lia|].
  destruct (p c); simpl; [|lia].
  destruct (EntityLexer.span p b) as [x r]. simpl in *. lia.
Qed.

Lemma expect_rest_length (c : byte) (b r : bytes) :
  EntityLexer.expect c b = Some r -> (List.length r <= List.length b)%nat.
Proof.
  destruct b as [|x b]; simpl; [discriminate|].
  destruct (Byte.eqb x c); [|discriminate].
  intros H. injection H as <-. lia.
Qed.

Lemma readIdentifier_rest_length (b : bytes) (g : GraphId) (r : bytes) :
  EntityLexer.readIdentifier b = Some (g, r) ->
  (List.length r <= List.length b)%nat.
Proof.
  unfold EntityLexer.readIdentifier.
  pose proof (span_rest_length EntityLexer.isDigit b) as H1.
  destruct (EntityLexer.span EntityLexer.isDigit b) as [hi r1]. simpl in H1.
  destruct hi as [|h hi]; [discriminate|].
  destruct (EntityLexer.expect EntityLexer.dot r1) as [r2|] eqn:H2; [|discriminate].
  apply expect_rest_length in H2.
  pose proof (span_rest_length EntityLexer.isDigit r2) as H3.
  destruct (EntityLexer.span EntityLexer.isDigit r2) as [lo r3]. simpl in H3.
  destruct lo; [discriminate|].
  intros H. injection H as _ <-. lia.
Qed.

Lemma scanExtent_rest_length (b : bytes) :
  forall (depth : nat) (inString : bool) (backslashes : nat) (r : bytes),
    EntityLexer.scanExtent b depth inString backslashes = Some r ->
    (List.length r <= List.length b)%nat.
Proof.
  induction b as [|c b IH]; intros depth inString backslashes r H.
  - discriminate.
  - simpl in H. simpl List.length.
    destruct inString.
    + destruct (Byte.eqb c EntityLexer.backslash).
      * apply IH in H. lia.
      * destruct (Byte.eqb c EntityLexer.dquote && Nat.even backslashes).
        -- destruct depth; [injection H as <-; lia|apply IH in H; lia].
        -- apply IH in H. lia.
    + destruct (Byte.eqb c EntityLexer.dquote); [apply IH in H; lia|].
      destruct (EntityLexer.isOpen c); [apply IH in H; lia|].
      destruct (EntityLexer.isClose c); [|apply IH in H; lia].
      destruct depth as [|[|depth]];
        [discriminate|injection H as <-; lia|apply IH in H; lia].
Qed.

Lemma valueExtent_rest_length (b r : bytes) :
  EntityLexer.valueExtent b = Some r -> (List.length r <= List.length b)%nat.
Proof.
  unfold EntityLexer.valueExtent.
  destruct b as [|c b]; [discriminate|].
  destruct (EntityLexer.isOpen c || Byte.eqb c EntityLexer.dquote).
  - apply scanExtent_rest_length.
  - pose proof (span_rest_length
                  (fun c0 => negb (EntityLexer.endsScalar c0)) (c :: b)) as H1.
    destruct (EntityLexer.span (fun c0 => negb (EntityLexer.endsScalar c0)) (c :: b))
      as [token r1]. simpl snd in H1.
    destruct token; [discriminate|].
    intros H. injection H as <-. exact H1.
Qed.

Lemma lexVertex_rest_length (b : bytes) (d : entityData) (r : bytes) :
  EntityLexer.lexVertex b = Some (d, r) -> (List.length r <= List.length b)%nat.
Proof.
  unfold EntityLexer.lexVertex.
  pose proof (span_rest_length EntityLexer.isLabelByte b) as H0.
  destruct (EntityLexer.span EntityLexer.isLabelByte b) as [label r0]. simpl in H0.
  destruct label; [discriminate|].
  destruct (EntityLexer.expect lbracket r0) as [r1|] eqn:H1; [|discriminate].
  apply expect_rest_length in H1.
  destruct (EntityLexer.readIdentifier r1) as [[g r2]|] eqn:H2; [|discriminate].
  apply readIdentifier_rest_length in H2. simpl.
  destruct (EntityLexer.expect rbracket r2) as [r3|] eqn:H3; [|discriminate].
  apply expect_rest_length in H3.
  destruct (EntityLexer.valueExtent r3) as [r4|] eqn:H4; [|discriminate].
  apply valueExtent_rest_length in H4.
  intros H. injection H as _ <-. lia.
Qed.

Lemma lexEdge_rest_length (b : bytes) (d : entityData) (r : bytes) :
  EntityLexer.lexEdge b = Some (d, r) -> (List.length r <= List.length b)%nat.
Proof.
  unfold EntityLexer.lexEdge.
  pose proof (span_rest_length EntityLexer.isLabelByte b) as H0.
  destruct (EntityLexer.span EntityLexer.isLabelByte b) as [label r0]. simpl in H0.
  destruct label; [discriminate|].
  destruct (EntityLexer.expect lbracket r0) as [r1|] eqn:H1; [|discriminate].
  apply expect_rest_length in H1.
  destruct (EntityLexer.readIdentifier r1) as [[g r2]|] eqn:H2; [|discriminate].
  apply readIdentifier_rest_length in H2. simpl.
  destruct (EntityLexer.expect rbracket r2) as [r3|] eqn:H3; [|discriminate].
  apply expect_rest_length in H3.
  destruct (EntityLexer.expect lbracket r3) as [r4|] eqn:H4; [|discriminate].
  apply expect_rest_length in H4.
  destruct (EntityLexer.readIdentifier r4) as [[gs r5]|] eqn:H5; [|discriminate].
  apply readIdentifier_rest_length in H5. simpl.
  destruct (EntityLexer.expect comma r5) as [r6|] eqn:H6; [|discriminate].
  apply expect_rest_length in H6.
  destruct (EntityLexer.readIdentifier r6) as [[ge r7]|] eqn:H7; [|discriminate].
  apply readIdentifier_rest_length in H7. simpl.
  destruct (EntityLexer.expect rbracket r7) as [r8|] eqn:H8; [|discriminate].
  apply expect_rest_length in H8.
  destruct (EntityLexer.valueExtent r8) as [r9|] eqn:H9; [|discriminate].
  apply valueExtent_rest_length in H9.
  intros H. injection H as _ <-. lia.
Qed.

Lemma readElement_bounded (lex : bytes -> option (entityData * bytes)) :
  (forall b d r, lex b = Some (d, r) -> (List.length r <= List.length b)%nat) ->
  readerBounded (EntityLexer.readElement lex).
Proof.
  intros Hlex b. unfold EntityLexer.readElement.
  destruct (HasPrefix b nullElementValue) eqn:Hnull.
  - apply HasPrefix_length in Hnull. simpl.
    change (len nullElementValue) with 4 in *. lia.
  - destruct (lex b) as [[d r]|] eqn:Hb; simpl.
    + apply Hlex in Hb. unfold len. lia.
    + pose proof (len_nonneg b). lia.
Qed.

Lemma readVertexElement_bounded : readerBounded EntityLexer.readVertexElement.
Proof. apply readElement_bounded. exact lexVertex_rest_length. Qed.

Lemma readEdgeElement_bounded : readerBounded EntityLexer.readEdgeElement.
Proof. apply readElement_bounded. exact lexEdge_rest_length. Qed.

(** An unclosed path: the loop of readPath runs off the end of the buffer
    and the run ends there, with a panic. *)
Lemma readPath_ends_witness :
  readPath EntityLexer.readVertexElement EntityLexer.readEdgeElement
    (B "[A[1.1]{},B[1.2][1.1,1.3]{}") <> Diverges.
Proof.
  apply (readPath_ends EntityLexer.readVertexElement EntityLexer.readEdgeElement
           (B "[A[1.1]{},B[1.2][1.1,1.3]{}")).
  - exact readVertexElement_bounded.
  - exact readEdgeElement_bounded.
  - vm_compute. reflexivity.
Defined.

(** ** BasicPath.SavePath *)

Lemma ScanEntity_returns_or_panics (S : Type) (src : iface) (entity : Entity S)
    (st : S) :
  ScanEntity src entity st <> Diverges.
Proof.
  assert (Hsave : forall d, saveEntityData d entity st <> Diverges).
  { intros [d|]; [|discriminate]. unfold saveEntityData.
    destruct (SaveEntity entity true (core d) st) as [[e|] st1]; [discriminate|].
    destruct (SaveProperties entity); discriminate. }
  destruct src as [|b|d|ty]; simpl; try discriminate; [|apply Hsave].
  destruct (len b <? 1); [discriminate|].
  destruct (readEntity entity b) as [d [e|]]; [discriminate|apply Hsave].
Qed.

Lemma store_length {A : Type} (l : list A) :
  forall (i : nat) (x : A), List.length (store l i x) = List.length l.
Proof.
  induction l as [|y l IH]; intros i x; [reflexivity|].
  destruct i; simpl; [reflexivity|]. rewrite IH. reflexivity.
Qed.

Lemma store_app_here {A : Type} (pre : list A) (y x : A) (rest : list A) :
  store (pre ++ y :: rest) (List.length pre) x = pre ++ x :: rest.
Proof.
  induction pre as [|z pre IH]; simpl; [reflexivity|].
  rewrite IH. reflexivity.
Qed.

Section SavePathFacts.

Variables V E : Type.
Variable zeroVertex : V.
Variable zeroEdge : E.
Variable vertexEntity : Entity V.
Variable edgeEntity : Entity E.

(** One turn of the loop of SavePath. *)
Lemma SavePath_loop_step (fuel : nat) (ne i j : Z) (ds : list iface)
    (p : BasicPath V E) :
  i < ne ->
  SavePath_loop V E vertexEntity edgeEntity (S fuel) ne i j ds p =
  match index (Vertices V E p) i, index ds j with
  | Some v, Some x =>
      match BasicVertex_Scan V vertexEntity x v with
      | Returns (err, v') =>
          let p := mkBasicPath V E (Valid V E p)
                     (store (Vertices V E p) (Z.to_nat i) v') (Edges V E p) in
          match err with
          | Some e => Returns (inl (Some e, p))
          | None =>
              match index (Edges V E p) i, index ds (j + 1) with
              | Some e0, Some y =>
                  match BasicEdge_Scan E edgeEntity y e0 with
                  | Returns (err, e') =>
                      let p := mkBasicPath V E (Valid V E p) (Vertices V E p)
                                 (store (Edges V E p) (Z.to_nat i) e') in
                      match err with
                      | Some e => Returns (inl (Some e, p))
                      | None =>
                          SavePath_loop V E vertexEntity edgeEntity fuel ne
                            (i + 1) (j + 2) ds p
                      end
                  | Panics q => Panics q
                  | Diverges => Diverges
                  end
              | _, _ => Panics IndexOutOfRange
              end
          end
      | Panics q => Panics q
      | Diverges => Diverges
      end
  | _, _ => Panics IndexOutOfRange
  end.
Proof.
  intros Hi. apply Z.ltb_lt in Hi.
  simpl SavePath_loop. rewrite Hi. reflexivity.
Qed.

Lemma SavePath_loop_done (fuel : nat) (ne i j : Z) (ds : list iface)
    (p : BasicPath V E) :
  ne <= i ->
  SavePath_loop V E vertexEntity edgeEntity fuel ne i j ds p
  = Returns (inr (i, j, p)).
Proof.
  intros Hi. apply Z.ltb_ge in Hi.
  destruct fuel; simpl; rewrite Hi; reflexivity.
Qed.

(** What the loop of SavePath can end with: an error of one of its
    scans, or all the pairs done, with [i] at [ne] and [j] two steps
    further per pair; the lengths of the two slices are kept. *)
Lemma SavePath_loop_result (fuel : nat) :
  forall (ne i j : Z) (ds : list iface) (p : BasicPath V E),
    i <= ne ->
    (Z.to_nat (ne - i) <= fuel)%nat ->
    match SavePath_loop V E vertexEntity edgeEntity fuel ne i j ds p with
    | Returns (inl (r, p')) =>
        r <> None
        /\ Valid V E p' = Valid V E p
        /\ List.length (Vertices V E p') = List.length (Vertices V E p)
        /\ List.length (Edges V E p') = List.length (Edges V E p)
    | Returns (inr (i', j', p')) =>
        i' = ne /\ j' = j + 2 * (ne - i)
        /\ Valid V E p' = Valid V E p
        /\ List.length (Vertices V E p') = List.length (Vertices V E p)
        /\ List.length (Edges V E p') = List.length (Edges V E p)
    | Panics _ => True
    | Diverges => False
    end.
Proof.
  induction fuel as [|fuel IH]; intros ne i j ds p Hi Hfuel.
  - rewrite SavePath_loop_done by lia.
    split; [lia|]. split; [lia|]. repeat split.
  - destruct (Z.eq_dec i ne) as [->|Hne].
    { rewrite SavePath_loop_done by lia.
      split; [lia|]. split; [lia|]. repeat split. }
    rewrite SavePath_loop_step by lia.
    destruct (index (Vertices V E p) i) as [v|]; [|exact I].
    destruct (index ds j) as [x|]; [|exact I].
    pose proof (ScanEntity_returns_or_panics V x vertexEntity v) as Hv.
    unfold BasicVertex_Scan.
    destruct (ScanEntity x vertexEntity v) as [[[e|] v']| |];
      [| |exact I|contradiction].
    + cbn [Valid Vertices Edges]. rewrite store_length.
      repeat split; discriminate.
    + cbv zeta. cbn [Valid Vertices Edges].
      destruct (index (Edges V E p) i) as [e0|]; [|exact I].
      destruct (index ds (j + 1)) as [y|]; [|exact I].
      pose proof (ScanEntity_returns_or_panics E y edgeEntity e0) as He.
      unfold BasicEdge_Scan.
      destruct (ScanEntity y edgeEntity e0) as [[[e|] e']| |];
        [| |exact I|contradiction].
      * cbn [Valid Vertices Edges]. rewrite !store_length.
        repeat split; discriminate.
      * specialize (IH ne (i + 1) (j + 2) ds
                      (mkBasicPath V E (Valid V E p)
                         (store (Vertices V E p) (Z.to_nat i) v')
                         (store (Edges V E p) (Z.to_nat i) e'))).
        destruct (SavePath_loop V E vertexEntity edgeEntity fuel ne (i + 1)
                    (j + 2) ds _) as [[[r p']|[[i' j'] p']]| |].
        -- cbn [Valid Vertices Edges] in IH. rewrite !store_length in IH.
           apply IH; lia.
        -- cbn [Valid Vertices Edges] in IH. rewrite !store_length in IH.
           destruct IH as [H1 [H2 H3]]; [lia|lia|].
           split; [exact H1|]. split; [lia|exact H3].
        -- exact I.
        -- apply IH; lia.
Qed.

Lemma make_length {A : Type} (zero : A) (n : Z) :
  List.length (make zero n) = Z.to_nat n.
Proof. unfold make. apply repeat_length. Qed.

Lemma index_past_end {A : Type} (b : list A) (i : Z) :
  len b <= i -> index b i = None.
Proof.
  intros H. unfold index.
  destruct (0 <=? i); [|reflexivity].
  assert (H1 : (i <? len b) = false) by (apply Z.ltb_ge; exact H).
  rewrite H1. reflexivity.
Qed.

Lemma pathElements_length {A : Type} (pairs : list (A * A)) (last : A) :
  len (pathElements pairs last) = 2 * len pairs + 1.
Proof.
  induction pairs as [|[v e] pairs IH]; [reflexivity|].
  simpl pathElements. rewrite !len_cons, IH. lia.
Qed.

Lemma len_snoc {A : Type} (l : list A) (x : A) : len (l ++ [x]) = len l + 1.
Proof. rewrite len_app, len_cons. reflexivity. Qed.

(** The loop of SavePath over pairs that scan without error: it stores
    the scanned vertex and edge of each pair in place of the zero values
    and leaves the last vertex for after the loop. *)
Lemma SavePath_loop_pairs (todo : list (iface * iface)) :
  forall (scanned : list (V * E)) (seen : list iface) (vs : list V) (es : list E)
         (last : iface) (valid : bool) (fuel : nat),
    Forall2 (scansTo V E zeroVertex zeroEdge vertexEntity edgeEntity) todo scanned ->
    len es = len vs ->
    (List.length todo <= fuel)%nat ->
    SavePath_loop V E vertexEntity edgeEntity fuel (len vs + len todo) (len vs)
      (len seen) (seen ++ pathElements todo last)
      (mkBasicPath V E valid
         (vs ++ repeat zeroVertex (List.length todo + 1))
         (es ++ repeat zeroEdge (List.length todo)))
    = Returns (inr (len vs + len todo, len seen + 2 * len todo,
                    mkBasicPath V E valid
                      (vs ++ map fst scanned ++ [zeroVertex])
                      (es ++ map snd scanned))).
Proof.
  induction todo as [|[x y] todo IH];
    intros scanned seen vs es last valid fuel Hscan Hes Hfuel.
  - inversion Hscan; subst.
    rewrite SavePath_loop_done by (change (len (@nil (iface * iface))) with 0; lia).
    change (len (@nil (iface * iface))) with 0.
    rewrite !Z.add_0_r. reflexivity.
  - inversion Hscan as [|pair [v e] todo' scanned' [Hv He] Hrest]; subst.
    simpl in Hv, He.
    destruct fuel as [|fuel]; [simpl in Hfuel; lia|].
    rewrite SavePath_loop_step
      by (rewrite len_cons; pose proof (len_nonneg todo); lia).
    cbn [Valid Vertices Edges].
    change (repeat zeroVertex (List.length ((x, y) :: todo) + 1))
      with (zeroVertex :: repeat zeroVertex (List.length todo + 1)).
    change (repeat zeroEdge (List.length ((x, y) :: todo)))
      with (zeroEdge :: repeat zeroEdge (List.length todo)).
    simpl pathElements.
    rewrite index_app_here, index_app_here, Hv.
    cbv zeta. cbn [Valid Vertices Edges].
    rewrite <- Hes at 1. rewrite index_app_here.
    replace (seen ++ x :: y :: pathElements todo last)
      with ((seen ++ [x]) ++ y :: pathElements todo last)
      by (rewrite <- app_assoc; reflexivity).
    rewrite <- (len_snoc seen x), index_app_here, He.
    assert (Hi1 : Z.to_nat (len vs) = List.length vs) by (unfold len; lia).
    assert (Hi2 : Z.to_nat (len vs) = List.length es)
      by (unfold len in *; lia).
    rewrite Hi1 at 1. rewrite store_app_here.
    rewrite Hi2. rewrite store_app_here.
    specialize (IH scanned' ((seen ++ [x]) ++ [y]) (vs ++ [v]) (es ++ [e])
                  last valid fuel Hrest).
    rewrite !len_snoc in IH.
    replace (((seen ++ [x]) ++ [y]) ++ pathElements todo last)
      with ((seen ++ [x]) ++ y :: pathElements todo last) in IH
      by (rewrite <- (app_assoc (seen ++ [x])); reflexivity).
    replace ((vs ++ [v]) ++ repeat zeroVertex (List.length todo + 1))
      with (vs ++ v :: repeat zeroVertex (List.length todo + 1)) in IH
      by (rewrite <- app_assoc; reflexivity).
    replace ((es ++ [e]) ++ repeat zeroEdge (List.length todo))
      with (es ++ e :: repeat zeroEdge (List.length todo)) in IH
      by (rewrite <- app_assoc; reflexivity).
    rewrite len_cons.
    replace (len vs + (1 + len todo)) with (len vs + 1 + len todo) by lia.
    replace (len seen + 1 + 1) with (len seen + 2) in IH by lia.
    rewrite IH by (simpl in Hfuel; lia).
    simpl map. rewrite <- !app_assoc. simpl app.
    replace (len seen + 2 * (1 + len todo)) with (len seen + 2 + 2 * len todo)
      by lia.
    reflexivity.
Qed.

Lemma pathElements_last {A : Type} (pairs : list (A * A)) (last : A) :
  exists init : list A,
    pathElements pairs last = init ++ [last] /\ len init = 2 * len pairs.
Proof.
  induction pairs as [|[v e] pairs [init [Heq Hlen]]].
  - exists []. split; reflexivity.
  - exists (v :: e :: init). simpl pathElements. rewrite Heq.
    split; [reflexivity|]. rewrite !len_cons, Hlen. lia.
Qed.

Lemma half_of_odd (k : Z) : (2 * k + 1) / 2 = k.
Proof. symmetry. apply (Z.div_unique (2 * k + 1) 2 k 1); lia. Qed.

Lemma SavePath_pairs_result
    (pairs : list (iface * iface)) (scanned : list (V * E)) (last : iface)
    (r : option error) (v : V) (p : BasicPath V E) :
  Forall2 (scansTo V E zeroVertex zeroEdge vertexEntity edgeEntity) pairs scanned ->
  BasicVertex_Scan V vertexEntity last zeroVertex = Returns (r, v) ->
  BasicPath_SavePath V E zeroVertex zeroEdge vertexEntity edgeEntity true
    (pathElements pairs last) p
  = Returns (None,
             mkBasicPath V E true (map fst scanned ++ [v])
               match pairs with
               | [] => Edges V E p
               | _ :: _ => map snd scanned
               end).
Proof.
  intros Hscan Hlast.
  destruct pairs as [|pr pairs'] eqn:Hpairs.
  { inversion Hscan; subst. simpl pathElements. simpl map. simpl app.
    apply (SavePath_single_element V E zeroVertex zeroEdge vertexEntity
             edgeEntity last p r v Hlast). }
  rewrite <- Hpairs in *. 
  assert (Hk : 0 < len pairs).
  { rewrite Hpairs, len_cons. pose proof (len_nonneg pairs'). lia. }
  assert (Hsame : len scanned = len pairs).
  { unfold len. f_equal. symmetry. exact (Forall2_length Hscan). }
  unfold BasicPath_SavePath. simpl negb. cbv iota.
  rewrite pathElements_length, half_of_odd.
  assert (Hlt : (2 * len pairs + 1 <? 1) = false) by (apply Z.ltb_ge; lia).
  assert (Hpos : (0 <? len pairs) = true) by (apply Z.ltb_lt; lia).
  rewrite Hlt, Hpos. cbv zeta. cbn [Valid Vertices Edges].
  unfold make.
  replace (Z.to_nat (len pairs + 1)) with (List.length pairs + 1)%nat
    by (unfold len; lia).
  replace (Z.to_nat (len pairs)) with (List.length pairs) by (unfold len; lia).
  pose proof (SavePath_loop_pairs pairs scanned [] [] [] last true
                (List.length pairs) Hscan eq_refl (le_n _)) as Hloop.
  change (len (@nil V) + len pairs) with (len pairs) in Hloop.
  change (len (@nil V)) with 0 in Hloop.
  change (len (@nil iface) + 2 * len pairs) with (2 * len pairs) in Hloop.
  change (len (@nil iface)) with 0 in Hloop.
  simpl app in Hloop. rewrite Hloop. cbn [Valid Vertices Edges].
  assert (Hmap : len (map fst scanned) = len pairs).
  { unfold len in *. rewrite length_map. exact Hsame. }
  replace (index (map fst scanned ++ [zeroVertex]) (len pairs))
    with (Some zeroVertex)
    by (rewrite <- Hmap; symmetry; apply index_app_here).
  destruct (pathElements_last pairs last) as [init [Hinit Hlen]].
  replace (index (pathElements pairs last) (2 * len pairs)) with (Some last)
    by (rewrite Hinit, <- Hlen; symmetry; apply index_app_here).
  rewrite Hlast.
  cbn [Valid Vertices Edges].
  replace (Z.to_nat (len pairs)) with (List.length (map fst scanned))
    by (rewrite length_map; unfold len in *; lia).
  rewrite store_app_here. reflexivity.
Qed.

(** SavePath on the elements of a path, when the vertices and edges of
    the loop scan without error: the path is valid, its vertices are the
    scanned vertices followed by what the last scan left, and its edges
    the scanned edges.  The error of the last scan, if any, is not
    returned; a path of a single vertex keeps the edges of the receiver. *)
Theorem SavePath_scans_in_pairs
    (pairs : list (iface * iface)) (scanned : list (V * E)) (last : iface)
    (r : option error) (v : V) (p : BasicPath V E) :
  Forall2 (scansTo V E zeroVertex zeroEdge vertexEntity edgeEntity) pairs scanned ->
  BasicVertex_Scan V vertexEntity last zeroVertex = Returns (r, v) ->
  BasicPath_SavePath V E zeroVertex zeroEdge vertexEntity edgeEntity true
    (pathElements pairs last) p
  = Returns (None,
             mkBasicPath V E true (map fst scanned ++ [v])
               match pairs with
               | [] => Edges V E p
               | _ :: _ => map snd scanned
               end).
Proof. intros Hscan Hlast. apply (SavePath_pairs_result _ _ _ r); assumption. Qed.

(** When SavePath returns for a non-empty sequence, with or without an
    error, the path is marked valid and holds one vertex more than half
    the number of elements (rounded down); it holds that half as edges
    when there are two elements or more, and for a single element the
    edges that the receiver had are kept as they were. *)
Theorem SavePath_shape (ds : list iface) (p p' : BasicPath V E)
    (r : option error) :
  0 < len ds ->
  BasicPath_SavePath V E zeroVertex zeroEdge vertexEntity edgeEntity true ds p
    = Returns (r, p') ->
  Valid V E p' = true
  /\ len (Vertices V E p') = len ds / 2 + 1
  /\ (1 < len ds -> len (Edges V E p') = len ds / 2)
  /\ (len ds = 1 -> Edges V E p' = Edges V E p).
Proof.
  intros Hn. unfold BasicPath_SavePath. simpl negb. cbv iota.
  assert (Hlt : (len ds <? 1) = false) by (apply Z.ltb_ge; lia).
  rewrite Hlt. cbv zeta. cbn [Valid Vertices Edges].
  pose proof (Z.div_pos (len ds) 2 ltac:(lia) ltac:(lia)) as Hne.
  pose proof (Z.div_mod (len ds) 2 ltac:(lia)) as Hdiv.
  pose proof (Z.mod_pos_bound (len ds) 2 ltac:(lia)) as Hmod.
  destruct (0 <? len ds / 2) eqn:Hpos.
  - apply Z.ltb_lt in Hpos.
    pose proof (SavePath_loop_result (Z.to_nat (len ds / 2)) (len ds / 2) 0 0 ds
                  (mkBasicPath V E true (make zeroVertex (len ds / 2 + 1))
                     (make zeroEdge (len ds / 2)))
                  ltac:(lia) ltac:(lia)) as Hloop.
    destruct (SavePath_loop V E vertexEntity edgeEntity (Z.to_nat (len ds / 2))
                (len ds / 2) 0 0 ds _) as [[[r1 p1]|[[i1 j1] p1]]| |];
      [| |discriminate|discriminate];
      cbn [Valid Vertices Edges] in Hloop; rewrite !make_length in Hloop.
    + destruct Hloop as [_ [Hv [Hvs Hes]]].
      intros H. injection H as <- <-.
      unfold len in *.
      split; [exact Hv|]. split; [lia|]. split; intros; lia.
    + destruct Hloop as [-> [_ [Hv [Hvs Hes]]]].
      destruct (index (Vertices V E p1) (len ds / 2)) as [v|]; [|discriminate].
      destruct (index ds j1) as [x|]; [|discriminate].
      destruct (BasicVertex_Scan V vertexEntity x v) as [[r1 v']| |];
        [|discriminate|discriminate].
      intros H. injection H as <- <-.
      cbn [Valid Vertices Edges]. unfold len in *. rewrite store_length.
      split; [exact Hv|]. split; [lia|]. split; intros; lia.
  - apply Z.ltb_ge in Hpos.
    rewrite SavePath_loop_done by lia.
    cbn [Valid Vertices Edges].
    destruct (index (make zeroVertex (len ds / 2 + 1)) 0) as [v|]; [|discriminate].
    destruct (index ds 0) as [x|]; [|discriminate].
    destruct (BasicVertex_Scan V vertexEntity x v) as [[r1 v']| |];
      [|discriminate|discriminate].
    intros H. injection H as <- <-.
    cbn [Valid Vertices Edges]. unfold len in *. rewrite store_length, make_length.
    split; [reflexivity|]. split; [lia|]. split; [intros; lia|reflexivity].
Qed.

(** SavePath never succeeds on a sequence with an even, non-zero number
    of elements: when every scan of the loop succeeds, the last vertex
    is read at the index one past the end of the sequence, and that
    panics; so what SavePath returns then, if it returns, is an error. *)
Theorem SavePath_even_never_succeeds (ds : list iface) (p p' : BasicPath V E)
    (r : option error) :
  0 < len ds ->
  Z.even (len ds) = true ->
  BasicPath_SavePath V E zeroVertex zeroEdge vertexEntity edgeEntity true ds p
    = Returns (r, p') ->
  r <> None.
Proof.
  intros Hn Heven. unfold BasicPath_SavePath. simpl negb. cbv iota.
  assert (Hlt : (len ds <? 1) = false) by (apply Z.ltb_ge; lia).
  rewrite Hlt. cbv zeta. cbn [Valid Vertices Edges].
  pose proof (Z.div_pos (len ds) 2 ltac:(lia) ltac:(lia)) as Hne.
  pose proof (Z.div_mod (len ds) 2 ltac:(lia)) as Hdiv.
  pose proof (Zmod_even (len ds)) as Hmod. rewrite Heven in Hmod.
  match goal with
  | |- match SavePath_loop _ _ _ _ ?f ?ne ?i ?j ?d ?q with _ => _ end = _ -> _ =>
      pose proof (SavePath_loop_result f ne i j d q ltac:(lia) ltac:(lia)) as Hloop;
      destruct (SavePath_loop V E vertexEntity edgeEntity f ne i j d q)
        as [[[r1 p1]|[[i1 j1] p1]]| |]; [| |discriminate|discriminate]
  end.
  - destruct Hloop as [Hr _]. intros H. injection H as <- _. exact Hr.
  - destruct Hloop as [-> [-> _]].
    rewrite (index_past_end ds) by lia.
    destruct (index (Vertices V E p1) (len ds / 2)); discriminate.
Qed.

End SavePathFacts.

(** ** BasicPath.String *)

Lemma Join_tail_text (s : list bytes) :
  forall x : bytes, Join (x :: s) [comma] ++ [rbracket] = x ++ tail_text s.
Proof.
  induction s as [|y s IH]; intros x.
  - reflexivity.
  - change (Join (x :: y :: s) [comma]) with (x ++ [comma] ++ Join (y :: s) [comma]).
    rewrite <- !app_assoc. rewrite IH. reflexivity.
Qed.

Lemma index_in_range {A : Type} (l : list A) (i : Z) :
  0 <= i < len l -> exists x : A, index l i = Some x.
Proof.
  intros [H0 H1]. unfold index.
  assert (Hle : (0 <=? i) = true) by (apply Z.leb_le; exact H0).
  assert (Hlt : (i <? len l) = true) by (apply Z.ltb_lt; exact H1).
  rewrite Hle, Hlt. simpl.
  destruct (nth_error l (Z.to_nat i)) as [x|] eqn:Hnth; [exists x; reflexivity|].
  apply nth_error_None in Hnth. unfold len in H1. lia.
Qed.

Section StringFacts.

Variables V E : Type.
Variable vertexString : V -> bytes.
Variable edgeString : E -> bytes.

Lemma String_loop_step (fuel : nat) (ne i : Z) (p : BasicPath V E)
    (s : list bytes) :
  i < ne ->
  String_loop V E vertexString edgeString (S fuel) ne i p s =
  match index (Vertices V E p) i, index (Edges V E p) i with
  | Some v, Some e =>
      String_loop V E vertexString edgeString fuel ne (i + 1) p
        (s ++ [vertexString v; edgeString e])
  | _, _ => Panics IndexOutOfRange
  end.
Proof.
  intros Hi. apply Z.ltb_lt in Hi. simpl String_loop. rewrite Hi. reflexivity.
Qed.

Lemma String_loop_done (fuel : nat) (ne i : Z) (p : BasicPath V E)
    (s : list bytes) :
  ne <= i -> String_loop V E vertexString edgeString fuel ne i p s = Returns s.
Proof.
  intros Hi. apply Z.ltb_ge in Hi. destruct fuel; simpl; rewrite Hi; reflexivity.
Qed.

(** The loop of String over a path of pairs: the strings of the pairs
    that are left, in order, are appended. *)
Lemma String_loop_pairs (todo : list (V * E)) :
  forall (seen : list (V * E)) (v : V) (valid : bool) (acc : list bytes)
         (fuel : nat),
    (List.length todo <= fuel)%nat ->
    exists s : list bytes,
      String_loop V E vertexString edgeString fuel (len seen + len todo)
        (len seen)
        (mkBasicPath V E valid (map fst (seen ++ todo) ++ [v])
           (map snd (seen ++ todo))) acc
      = Returns s
      /\ forall l : bytes,
           s ++ [l]
           = acc ++ pathElements (map (pairStrings V E vertexString edgeString) todo) l.
Proof.
  induction todo as [|[v0 e0] todo IH]; intros seen v valid acc fuel Hfuel.
  - exists acc. split; [|reflexivity].
    apply String_loop_done. change (len (@nil (V * E))) with 0. lia.
  - destruct fuel as [|fuel]; [simpl in Hfuel; lia|].
    rewrite String_loop_step
      by (rewrite len_cons; pose proof (len_nonneg todo); lia).
    cbn [Vertices Edges].
    assert (Hv : index (map fst (seen ++ (v0, e0) :: todo) ++ [v]) (len seen)
                 = Some v0).
    { rewrite map_app, <- app_assoc.
      replace (len seen) with (len (map fst seen))
        by (unfold len; rewrite length_map; reflexivity).
      apply index_app_here. }
    assert (He : index (map snd (seen ++ (v0, e0) :: todo)) (len seen) = Some e0).
    { rewrite map_app.
      replace (len seen) with (len (map snd seen))
        by (unfold len; rewrite length_map; reflexivity).
      apply index_app_here. }
    rewrite Hv, He.
    destruct (IH (seen ++ [(v0, e0)]) v valid
                (acc ++ [vertexString v0; edgeString e0]) fuel
                ltac:(simpl in Hfuel; lia)) as [s [Hs Hl]].
    exists s. split.
    + rewrite len_snoc, <- app_assoc in Hs. simpl app in Hs.
      rewrite len_cons.
      replace (len seen + (1 + len todo)) with (len seen + 1 + len todo) by lia.
      exact Hs.
    + intros l. rewrite Hl, <- app_assoc. reflexivity.
Qed.

Lemma String_of_pairs (ves : list (V * E)) (v : V) :
  BasicPath_String V E vertexString edgeString
    (mkBasicPath V E true (map fst ves ++ [v]) (map snd ves))
  = Returns (path_text
               (pathElements (map (pairStrings V E vertexString edgeString) ves)
                  (vertexString v))).
Proof.
  unfold BasicPath_String. cbn [Valid Vertices Edges]. simpl negb. cbv iota.
  assert (Hmapv : len (map fst ves) = len ves)
    by (unfold len; rewrite length_map; reflexivity).
  assert (Hmape : len (map snd ves) = len ves)
    by (unfold len; rewrite length_map; reflexivity).
  assert (Hnv : (len (map fst ves ++ [v]) <? 1) = false).
  { apply Z.ltb_ge. rewrite len_snoc. pose proof (len_nonneg (map fst ves)). lia. }
  rewrite Hnv. cbv zeta.
  destruct (String_loop_pairs ves [] v true [] (Z.to_nat (len (map snd ves)))
              ltac:(unfold len; rewrite length_map; lia)) as [s [Hs Hl]].
  change (len (@nil (V * E)) + len ves) with (len ves) in Hs.
  change (len (@nil (V * E))) with 0 in Hs. simpl app in Hs.
  rewrite Hmape in *. rewrite Hs.
  replace (len (map fst ves ++ [v]) - 1) with (len (map fst ves))
    by (rewrite len_snoc; lia).
  rewrite index_app_here, Hl. simpl app.
  destruct (pathElements (map (pairStrings V E vertexString edgeString) ves)
              (vertexString v)) as [|h t] eqn:Hp.
  - destruct ves as [|[v1 e1] ves]; discriminate.
  - unfold path_text. rewrite Join_tail_text. reflexivity.
Qed.

(** String of a valid path of k+1 vertices and k edges is the bracketed
    literal whose elements are the strings of the vertices and edges in
    alternation, separated by commas. *)
Theorem String_renders_path_text (ves : list (V * E)) (v : V) :
  BasicPath_String V E vertexString edgeString
    (mkBasicPath V E true (map fst ves ++ [v]) (map snd ves))
  = Returns (path_text
               (pathElements (map (pairStrings V E vertexString edgeString) ves)
                  (vertexString v))).
Proof. exact (String_of_pairs ves v). Qed.

End StringFacts.

Section StringBounds.

Variables V E : Type.
Variable vertexString : V -> bytes.
Variable edgeString : E -> bytes.

(** With no more edges than vertices, the loop of String returns. *)
Lemma String_loop_returns (p : BasicPath V E) (fuel : nat) :
  forall (i : Z) (acc : list bytes),
    len (Edges V E p) <= len (Vertices V E p) ->
    0 <= i ->
    (Z.to_nat (len (Edges V E p) - i) <= fuel)%nat ->
    exists s : list bytes,
      String_loop V E vertexString edgeString fuel (len (Edges V E p)) i p acc
      = Returns s.
Proof.
  induction fuel as [|fuel IH]; intros i acc Hle Hi Hfuel.
  - exists acc. apply String_loop_done. lia.
  - destruct (Z_lt_le_dec i (len (Edges V E p))) as [Hlt|Hge].
    + rewrite String_loop_step by exact Hlt.
      destruct (index_in_range (Vertices V E p) i ltac:(lia)) as [v ->].
      destruct (index_in_range (Edges V E p) i ltac:(lia)) as [e ->].
      apply IH; lia.
    + exists acc. apply String_loop_done. exact Hge.
Qed.

(** With more edges than vertices, the loop of String indexes the
    vertices past their end. *)
Lemma String_loop_panics (p : BasicPath V E) (fuel : nat) :
  forall (i : Z) (acc : list bytes),
    len (Vertices V E p) < len (Edges V E p) ->
    0 <= i <= len (Vertices V E p) ->
    (Z.to_nat (len (Vertices V E p) - i) < fuel)%nat ->
    String_loop V E vertexString edgeString fuel (len (Edges V E p)) i p acc
    = Panics IndexOutOfRange.
Proof.
  induction fuel as [|fuel IH]; intros i acc Hlt Hi Hfuel; [lia|].
  rewrite String_loop_step by lia.
  destruct (Z.eq_dec i (len (Vertices V E p))) as [->|Hne].
  - rewrite index_past_end by lia. reflexivity.
  - destruct (index_in_range (Vertices V E p) i ltac:(lia)) as [v ->].
    destruct (index_in_range (Edges V E p) i ltac:(lia)) as [e ->].
    apply IH; lia.
Qed.

(** String panics exactly on a valid path that holds at least one vertex
    and more edges than vertices, and then with an index out of range;
    on every other path it returns. *)
Theorem String_panics_iff (p : BasicPath V E) (q : panic) :
  BasicPath_String V E vertexString edgeString p = Panics q <->
  q = IndexOutOfRange
  /\ Valid V E p = true
  /\ 1 <= len (Vertices V E p)
  /\ len (Vertices V E p) < len (Edges V E p).
Proof.
  unfold BasicPath_String.
  pose proof (len_nonneg (Edges V E p)) as Hne.
  split.
  - destruct (Valid V E p); simpl negb; cbv iota; [|discriminate].
    destruct (len (Vertices V E p) <? 1) eqn:Hnv; [discriminate|].
    apply Z.ltb_ge in Hnv. cbv zeta.
    destruct (Z_lt_le_dec (len (Vertices V E p)) (len (Edges V E p))) as [Hlt|Hle].
    + rewrite String_loop_panics by lia.
      intros H. injection H as <-. repeat split; assumption.
    + destruct (String_loop_returns p (Z.to_nat (len (Edges V E p))) 0 []
                  Hle ltac:(lia) ltac:(lia)) as [s ->].
      destruct (index_in_range (Vertices V E p) (len (Vertices V E p) - 1)
                  ltac:(lia)) as [v ->].
      discriminate.
  - intros [-> [-> [Hnv Hlt]]]. simpl negb. cbv iota.
    apply Z.ltb_ge in Hnv. rewrite Hnv. cbv zeta.
    apply Z.ltb_ge in Hnv.
    rewrite String_loop_panics by lia. reflexivity.
Qed.

Variable zeroVertex : V.
Variable zeroEdge : E.
Variable vertexEntity : Entity V.
Variable edgeEntity : Entity E.

(** A BasicPath that is used again keeps its edges when the next path
    has a single vertex; when it held two edges or more, SavePath
    succeeds and String then panics. *)
Theorem SavePath_single_vertex_stale_edges
    (x : iface) (r : option error) (v : V) (p : BasicPath V E) :
  2 <= len (Edges V E p) ->
  BasicVertex_Scan V vertexEntity x zeroVertex = Returns (r, v) ->
  BasicPath_SavePath V E zeroVertex zeroEdge vertexEntity edgeEntity true [x] p
    = Returns (None, mkBasicPath V E true [v] (Edges V E p))
  /\ BasicPath_String V E vertexString edgeString
       (mkBasicPath V E true [v] (Edges V E p))
     = Panics IndexOutOfRange.
Proof.
  intros Hedges Hscan. split.
  - apply (SavePath_single_element V E zeroVertex zeroEdge vertexEntity
             edgeEntity x p r v Hscan).
  - unfold BasicPath_String. cbn [Valid Vertices Edges]. simpl negb. cbv iota.
    change (len [v] <? 1) with false. cbv iota zeta.
    pose proof (String_loop_panics (mkBasicPath V E true [v] (Edges V E p))
                  (Z.to_nat (len (Edges V E p))) 0 []) as Hloop.
    cbn [Valid Vertices Edges] in Hloop.
    rewrite Hloop; [reflexivity| | |]; change (len [v]) with 1; lia.
Qed.

End StringBounds.

(** ** Scanning back what String wrote *)

Lemma readPath_recognised (rv re : elementReader)
    (es : list bytes) (ds : list (option entityData)) :
  len (path_text es) < 2 ^ 63 ->
  starts_element es ->
  recognised rv re true es ds ->
  readPath rv re (path_text es) = Returns (len (path_text es), map toElement ds, None).
Proof.
  intros Hlen Hstart Hrec.
  destruct es as [|e es].
  - inversion Hrec; subst. reflexivity.
  - inversion Hrec as [|turn e' es' d ds' Hfirst Hrest]; subst.
    destruct e as [|c e]; [contradiction|].
    simpl in Hstart. simpl readerAt in Hfirst.
    unfold path_text in *.
    rewrite readPath_bracket, readPath_loop_step.
    change ((c :: e) ++ tail_text es) with (c :: (e ++ tail_text es)).
    rewrite index_1.
    destruct (Byte.eqb c rbracket) eqn:Hc.
    { apply Byte.byte_dec_bl in Hc. contradiction. }
    change (0 <? len (@nil iface)) with false. cbv iota zeta.
    rewrite slice_from_1.
    change (c :: e ++ tail_text es) with ((c :: e) ++ tail_text es) in *.
    rewrite Hfirst, toElement_app.
    change (lbracket :: (c :: e) ++ tail_text es)
      with ((lbracket :: c :: e) ++ tail_text es) in *.
    assert (Hadv : wrap_int (1 + len (c :: e)) = len (lbracket :: c :: e)).
    { rewrite (len_cons lbracket). apply wrap_int_small.
      rewrite len_app, (len_cons lbracket) in Hlen.
      pose proof (len_nonneg (tail_text es)).
      pose proof (len_nonneg (c :: e)). lia. }
    rewrite Hadv.
    pose proof (readPath_loop_recognised rv re es false ds' ([] ++ [toElement d])
                  (lbracket :: c :: e)
                  (S (List.length ((lbracket :: c :: e) ++ tail_text es)))
                  Hrest) as Hloop.
    simpl negb in Hloop. unfold readerAt in Hloop at 1 2.
    rewrite Hloop.
    + reflexivity.
    + discriminate.
    + exact Hlen.
    + pose proof (tail_text_length es). rewrite length_app. lia.
Qed.

Lemma map_toElement_pathElements
    (dpairs : list (option entityData * option entityData))
    (dlast : option entityData) :
  map toElement (pathElements dpairs dlast)
  = pathElements (map toElementPair dpairs) (toElement dlast).
Proof.
  induction dpairs as [|[a b] dpairs IH]; [reflexivity|].
  simpl. rewrite IH. reflexivity.
Qed.

Section RoundTrip.

Variables V E : Type.
Variable zeroVertex : V.
Variable zeroEdge : E.
Variable vertexEntity : Entity V.
Variable edgeEntity : Entity E.
Variable vertexString : V -> bytes.
Variable edgeString : E -> bytes.
Variables readVertexElement readEdgeElement : elementReader.

(** Round trip of a path through its literal.  Take a valid path of k+1
    vertices and k edges.  If the readers recognise, in turn, the strings
    of its vertices and edges, and the entities they return scan back to
    those vertices and edges, then Scan of a fresh BasicPath on the bytes
    that String returns gives the path back, without error. *)
Theorem Scan_of_String_round_trip
    (ves : list (V * E)) (v : V)
    (dpairs : list (option entityData * option entityData))
    (dlast : option entityData) (r : option error) (p0 : BasicPath V E) :
  len (path_text (pathElements (map (pairStrings V E vertexString edgeString) ves)
                    (vertexString v))) < 2 ^ 63 ->
  starts_element (pathElements (map (pairStrings V E vertexString edgeString) ves)
                    (vertexString v)) ->
  recognised readVertexElement readEdgeElement true
    (pathElements (map (pairStrings V E vertexString edgeString) ves)
       (vertexString v))
    (pathElements dpairs dlast) ->
  Forall2 (scansTo V E zeroVertex zeroEdge vertexEntity edgeEntity)
    (map toElementPair dpairs) ves ->
  BasicVertex_Scan V vertexEntity (toElement dlast) zeroVertex = Returns (r, v) ->
  Edges V E p0 = [] ->
  exists text : bytes,
    BasicPath_String V E vertexString edgeString
      (mkBasicPath V E true (map fst ves ++ [v]) (map snd ves)) = Returns text
    /\ BasicPath_Scan V E zeroVertex zeroEdge vertexEntity edgeEntity
         readVertexElement readEdgeElement (IBytes text) p0
       = Returns (None, mkBasicPath V E true (map fst ves ++ [v]) (map snd ves)).
Proof.
  intros Hlen Hstart Hrec Hscan Hlast Hfresh.
  eexists. split; [apply String_of_pairs|].
  unfold BasicPath_Scan, ScanPath.
  rewrite (readPath_recognised _ _ _ _ Hlen Hstart Hrec).
  assert (Hn : (len (path_text
                       (pathElements
                          (map (pairStrings V E vertexString edgeString) ves)
                          (vertexString v))) <? 1) = false).
  { apply Z.ltb_ge. unfold path_text. rewrite len_cons.
    match goal with |- 1 <= 1 + len ?l => pose proof (len_nonneg l) end. lia. }
  rewrite Hn, Z.eqb_refl. simpl negb. cbv iota. cbn [SavePath capture].
  rewrite map_toElement_pathElements.
  rewrite (SavePath_pairs_result V E zeroVertex zeroEdge vertexEntity edgeEntity
             _ _ _ r v p0 Hscan Hlast).
  destruct (map toElementPair dpairs) eqn:Hd; [|reflexivity].
  inversion Hscan; subst. rewrite Hfresh. reflexivity.
Qed.

End RoundTrip.

Lemma Scan_of_String_round_trip_witness :
  exists text : bytes,
    BasicPath_String rawEntity rawEntity rawString rawString
      (mkBasicPath rawEntity rawEntity true [scenarioD_A; scenarioD_C] [scenarioD_B])
    = Returns text
    /\ BasicPath_Scan rawEntity rawEntity rawZero rawZero rawVertex rawEdge
         EntityLexer.readVertexElement EntityLexer.readEdgeElement (IBytes text)
         (mkBasicPath rawEntity rawEntity false [] [])
       = Returns (None,
                  mkBasicPath rawEntity rawEntity true [scenarioD_A; scenarioD_C]
                    [scenarioD_B]).
Proof.
  apply (Scan_of_String_round_trip rawEntity rawEntity rawZero rawZero
           rawVertex rawEdge rawString rawString
           EntityLexer.readVertexElement EntityLexer.readEdgeElement
           [(scenarioD_A, scenarioD_B)] scenarioD_C
           [(scenarioD_A_data, scenarioD_B_data)] scenarioD_C_data None).
  - vm_compute. reflexivity.
  - vm_compute. discriminate.
  - repeat (apply recognised_cons; [vm_compute; reflexivity|]).
    apply recognised_nil.
  - repeat constructor.
  - reflexivity.
  - reflexivity.
Defined.

(** ** The calls ScanEntity makes *)



(** ** Instances of the properties of SavePath *)

Lemma SavePath_scans_in_pairs_witness :
  BasicPath_SavePath rawEntity rawEntity rawZero rawZero rawVertex rawEdge true
    (pathElements [(toElement scenarioD_A_data, toElement scenarioD_B_data)]
       (toElement scenarioD_C_data))
    (mkBasicPath rawEntity rawEntity false [] [])
  = Returns (None,
             mkBasicPath rawEntity rawEntity true [scenarioD_A; scenarioD_C]
               [scenarioD_B]).
Proof.
  apply (SavePath_scans_in_pairs rawEntity rawEntity rawZero rawZero rawVertex
           rawEdge [(toElement scenarioD_A_data, toElement scenarioD_B_data)]
           [(scenarioD_A, scenarioD_B)] (toElement scenarioD_C_data) None
           scenarioD_C (mkBasicPath rawEntity rawEntity false [] [])).
  - repeat constructor.
  - reflexivity.
Defined.

Lemma SavePath_shape_witness :
  Valid rawEntity rawEntity
    (mkBasicPath rawEntity rawEntity true [scenarioD_A; scenarioD_C] [scenarioD_B])
  = true
  /\ len [scenarioD_A; scenarioD_C] = len (map toElement scenarioD_entities) / 2 + 1
  /\ (1 < len (map toElement scenarioD_entities) ->
      len [scenarioD_B] = len (map toElement scenarioD_entities) / 2)
  /\ (len (map toElement scenarioD_entities) = 1 -> [scenarioD_B] = []).
Proof.
  apply (SavePath_shape rawEntity rawEntity rawZero rawZero rawVertex rawEdge
           (map toElement scenarioD_entities)
           (mkBasicPath rawEntity rawEntity false [] [])
           (mkBasicPath rawEntity rawEntity true [scenarioD_A; scenarioD_C]
              [scenarioD_B]) None).
  - vm_compute. reflexivity.
  - vm_compute. reflexivity.
Defined.

Lemma SavePath_even_never_succeeds_witness :
  Some (InvalidEntitySourceType "string") <> None.
Proof.
  apply (SavePath_even_never_succeeds rawEntity rawEntity rawZero rawZero
           rawVertex rawEdge [IOther "string"; INil]
           (mkBasicPath rawEntity rawEntity false [] [])
           (mkBasicPath rawEntity rawEntity true [rawZero; rawZero] [rawZero])).
  - vm_compute. reflexivity.
  - reflexivity.
  - vm_compute. reflexivity.
Defined.

Lemma SavePath_single_vertex_stale_edges_witness :
  BasicPath_SavePath rawEntity rawEntity rawZero rawZero rawVertex rawEdge true
    [toElement scenarioD_C_data]
    (mkBasicPath rawEntity rawEntity true
       [scenarioD_A; scenarioD_C; scenarioD_A] [scenarioD_B; scenarioD_B])
  = Returns (None,
             mkBasicPath rawEntity rawEntity true [scenarioD_C]
               [scenarioD_B; scenarioD_B])
  /\ BasicPath_String rawEntity rawEntity rawString rawString
       (mkBasicPath rawEntity rawEntity true [scenarioD_C]
          [scenarioD_B; scenarioD_B])
     = Panics IndexOutOfRange.
Proof.
  apply (SavePath_single_vertex_stale_edges rawEntity rawEntity rawString rawString
           rawZero rawZero rawVertex rawEdge (toElement scenarioD_C_data) None
           scenarioD_C
           (mkBasicPath rawEntity rawEntity true
              [scenarioD_A; scenarioD_C; scenarioD_A] [scenarioD_B; scenarioD_B])).
  - vm_compute. discriminate.
  - reflexivity.
Defined.
